(** * lgdo.types.table: the [Table] class of legend-pydataobj

    A shallow embedding of [src/lgdo/types/table.py].  Python objects live
    in a store addressed by references, so that two tables holding the same
    column object really share it; methods are functions on the store. *)

From Stdlib Require Import ZArith Lia.
From stdpp Require Import base option list gmap strings.

Open Scope Z_scope.

(** ** Exceptions and the result of a call *)

Inductive exn :=
  | TypeError
  | ValueError
  | KeyError
  | RuntimeError
  | SyntaxError
  | NameError
  | RecursionError   (* the recursion budget of the model is exhausted *)
  | ReferenceError.  (* a reference outside the store; no Python program has one *)

Inductive result (A : Type) :=
  | Ok (a : A)
  | Raise (e : exn).
Arguments Ok {A} a.
Arguments Raise {A} e.

(** A raised exception aborts the call.  The theorems speak of calls that
    return, so the store left behind by an aborted call is not kept. *)
#[export] Instance result_bind : MBind result := fun A B k m =>
  match m with
  | Ok a => k a
  | Raise e => Raise e
  end.
#[export] Instance result_ret : MRet result := fun A a => Ok a.

Definition returns {A} (m : result A) : Prop := exists a, m = Ok a.

(** ** Column data *)

(** A NumPy array: its shape and its items in row-major order. *)
Record ndarray := mk_ndarray { shape : list nat; items : list Z }.

Definition ndim (a : ndarray) : nat := length (shape a).

(** An Awkward array: a flat list of numbers (one dimension) or a list of
    sub-arrays of any lengths. *)
#[warnings="-register-all"] Inductive akarray :=
  | AkLeaf (xs : list Z)
  | AkNest (rows : list akarray).

Fixpoint ak_ndim (a : akarray) : nat :=
  match a with
  | AkLeaf _ => 1
  | AkNest nil => 2
  | AkNest (r :: _) => S (ak_ndim r)
  end.

Definition ak_len (a : akarray) : nat :=
  match a with
  | AkLeaf xs => length xs
  | AkNest rows => length rows
  end.

(** ** Objects and the store *)

Definition ref := nat.

(** The state of a [Table]: the fields of [Struct] (a [dict] from names to
    objects, in insertion order, and the user attributes) and the two
    attributes [size] and [loc] that [Table] adds.  [size = None] is
    Python's [None]. *)
Record Table := mk_Table {
  size : option Z;
  loc : Z;
  cols : list (string * ref);
  attrs : list (string * string)
}.

Inductive lgdo :=
  | Scalar (value : Z)
  | Array (nda : ndarray)
  | ArrayOfEqualSizedArrays (nda : ndarray)
  | VectorOfVectors (data : akarray)
  | TableObj (t : Table).

Abbreviation heap := (gmap ref lgdo).

Definition alloc (h : heap) (o : lgdo) : ref * heap :=
  let r := fresh (dom h) in (r, <[r := o]> h).

Definition get_table (h : heap) (r : ref) : result Table :=
  match h !! r with
  | Some (TableObj t) => Ok t
  | Some _ => Raise TypeError
  | None => Raise ReferenceError
  end.

Definition set_size (t : Table) (s : option Z) : Table :=
  mk_Table s (loc t) (cols t) (attrs t).
Definition set_loc (t : Table) (l : Z) : Table :=
  mk_Table (size t) l (cols t) (attrs t).
Definition set_cols (t : Table) (c : list (string * ref)) : Table :=
  mk_Table (size t) (loc t) c (attrs t).

(** ** dict operations on the field mapping *)

Fixpoint dict_get {V} (d : list (string * V)) (k : string) : option V :=
  match d with
  | nil => None
  | (k', v) :: d' => if decide (k' = k) then Some v else dict_get d' k
  end.

(** [d[k] = v]: an existing key keeps its position, a new key goes last. *)
Fixpoint dict_set {V} (d : list (string * V)) (k : string) (v : V)
  : list (string * V) :=
  match d with
  | nil => (k, v) :: nil
  | (k', v') :: d' =>
      if decide (k' = k) then (k, v) :: d' else (k', v') :: dict_set d' k v
  end.

(** [dict.update(other)] *)
Definition dict_update {V} (d other : list (string * V)) : list (string * V) :=
  fold_left (fun acc kv => dict_set acc kv.1 kv.2) other d.

Definition dict_keys {V} (d : list (string * V)) : list string := map fst d.

(** ** Lengths *)

(** Modelled from the spec: the column types ([Array],
    [ArrayOfEqualSizedArrays], [VectorOfVectors], [Scalar]) are not part of
    table.py.  Each array-like column "exposes length()": the number of rows
    along the first axis.  A [Scalar] has no [__len__].  For a [Table] this
    is [Table.__len__], which returns [self.size]. *)
Definition length_of (o : lgdo) : option Z :=
  match o with
  | Scalar _ => None
  | Array a | ArrayOfEqualSizedArrays a =>
      match shape a with
      | nil => None
      | n :: _ => Some (Z.of_nat n)
      end
  | VectorOfVectors d => Some (Z.of_nat (ak_len d))
  | TableObj t => size t
  end.

(** [hasattr(obj, "__len__")] *)
Definition has_len (o : lgdo) : bool :=
  match o with
  | Scalar _ => false
  | _ => true
  end.

(** Python's builtin [len(obj)]: a [TypeError] when there is no [__len__] or
    it returns [None], a [ValueError] when it returns a negative number. *)
Definition len_obj (o : lgdo) : result Z :=
  match length_of o with
  | None => Raise TypeError
  | Some z => if z <? 0 then Raise ValueError else Ok z
  end.

Definition len (h : heap) (r : ref) : result Z :=
  match h !! r with
  | Some o => len_obj o
  | None => Raise ReferenceError
  end.

(** ** Resizing a column *)

(** Pad with [pad] or truncate to [n] elements, keeping the first
    [min (length l) n] of them. *)
Definition fit {A} (pad : A) (n : nat) (l : list A) : list A :=
  take n l ++ replicate (n - length l)%nat pad.

Definition row_items (a : ndarray) : nat :=
  fold_right Nat.mul 1%nat (tail (shape a)).

(** Modelled from the spec: the in-place [resize(n)] of the array-like
    column types, which "pads or truncates to n rows, preserving existing
    data up to min(old_length, n)".  A negative row count is refused. *)
Definition resize_nda (a : ndarray) (n : Z) : result ndarray :=
  match shape a with
  | nil => Raise TypeError
  | _ :: rest =>
      if n <? 0 then Raise ValueError
      else Ok (mk_ndarray (Z.to_nat n :: rest)
                 (fit 0 (Z.to_nat n * row_items a)%nat (items a)))
  end.

Definition resize_ak (d : akarray) (n : Z) : result akarray :=
  if n <? 0 then Raise ValueError
  else match d with
       | AkLeaf xs => Ok (AkLeaf (fit 0 (Z.to_nat n) xs))
       | AkNest rows => Ok (AkNest (fit (AkLeaf nil) (Z.to_nat n) rows))
       end.

Definition column_resize (o : lgdo) (n : Z) : result lgdo :=
  match o with
  | Scalar _ => Raise TypeError
  | Array a => a' ← resize_nda a n; Ok (Array a')
  | ArrayOfEqualSizedArrays a =>
      a' ← resize_nda a n; Ok (ArrayOfEqualSizedArrays a')
  | VectorOfVectors d => d' ← resize_ak d n; Ok (VectorOfVectors d')
  | TableObj _ => Raise TypeError
  end.

(** ** Table.resize *)

Section ResizeLoop.
(** [obj.resize(new_size)] for a column that is itself a [Table]. *)
Variable resize_table : heap -> ref -> option Z -> result heap.

(** [obj.resize(new_size)]: both branches of the [isinstance] test make
    the same call, which dispatches on the class of [obj]. *)
Definition obj_resize (h : heap) (obj : ref) (n : Z) : result heap :=
  match h !! obj with
  | Some (TableObj _) => resize_table h obj (Some n)
  | Some o => o' ← column_resize o n; Ok (<[obj := o']> h)
  | None => Raise ReferenceError
  end.

(** The body of [for field, obj in self.items()], threading the store and
    the local variable [new_size]. *)
Fixpoint resize_items (items : list (string * ref)) (h : heap)
    (new_size : option Z) : result (heap * option Z) :=
  match items with
  | nil => Ok (h, new_size)
  | (field, obj) :: rest =>
      match new_size with
      | None =>
          l ← len h obj;
          resize_items rest h (Some l)
      | Some n =>
          l ← len h obj;
          if decide (l <> n) then
            h' ← obj_resize h obj n;
            resize_items rest h' (Some n)
          else resize_items rest h (Some n)
      end
  end.
End ResizeLoop.

(** [self.size = new_size] *)
Definition assign_size (h : heap) (self : ref) (s : option Z) : result heap :=
  t ← get_table h self;
  Ok (<[self := TableObj (set_size t s)]> h).

(** [Table.resize(new_size, do_warn)].  [fuel] bounds the depth of the
    recursion into nested tables; the warning is written to the log and
    changes no object. *)
Fixpoint Table_resize (fuel : nat) (h : heap) (self : ref)
    (new_size : option Z) (do_warn : bool) : result heap :=
  match fuel with
  | O => Raise RecursionError
  | S fuel' =>
      t ← get_table h self;
      '(h', new_size') ←
        resize_items (fun h o n => Table_resize fuel' h o n false)
          (cols t) h new_size;
      assign_size h' self new_size'
  end.

(** ** Construction *)

(** Modelled from the spec: [Struct.__init__] is not part of table.py.  The
    named-field container is an "ordered name -> column mapping" with "a
    metadata-attribute dictionary"; the objects of [obj_dict] are "stored by
    reference, not copied". *)
Definition Struct_init (obj_dict : option (list (string * ref)))
    (attrs : option (list (string * string))) : Table :=
  mk_Table None 0 (dict_update nil (default nil obj_dict)) (default nil attrs).

(** [self.loc = v] *)
Definition assign_loc (h : heap) (self : ref) (v : Z) : result heap :=
  t ← get_table h self;
  Ok (<[self := TableObj (set_loc t v)]> h).

(** [Table.__init__(size, col_dict, attrs)]: the new object and the store
    that holds it. *)
Definition Table_init (fuel : nat) (h : heap) (size : option Z)
    (col_dict : option (list (string * ref)))
    (attrs : option (list (string * string))) : result (ref * heap) :=
  let '(self, h0) := alloc h (TableObj (Struct_init col_dict attrs)) in
  h1 ← match col_dict with
       | Some d =>
           if (0 <? length d)%nat then
             let do_warn := bool_decide (size = None) in
             Table_resize fuel h0 self size do_warn
           else
             assign_size h0 self
               (match size with Some s => Some s | None => None end)
       | None =>
           assign_size h0 self
             (match size with Some s => Some s | None => None end)
       end;
  h2 ← assign_loc h1 self 0;
  Ok (self, h2).

(** [Table.__len__] *)
Definition Table_len (h : heap) (self : ref) : result (option Z) :=
  t ← get_table h self;
  Ok (size t).

(** ** The row cursor *)

Definition Table_push_row (h : heap) (self : ref) : result heap :=
  t ← get_table h self;
  assign_loc h self (loc t + 1).

(** [self.loc >= self.size]; comparing an [int] with [None] is a [TypeError]. *)
Definition Table_is_full (h : heap) (self : ref) : result bool :=
  t ← get_table h self;
  match size t with
  | Some s => Ok (loc t >=? s)
  | None => Raise TypeError
  end.

Definition Table_clear (h : heap) (self : ref) : result heap :=
  assign_loc h self 0.

(** ** Adding and removing fields *)

(** Modelled from the spec: [Struct.add_field] is not part of table.py; it
    adds the field to the "ordered name -> column mapping" ([self[name] = obj]). *)
Definition Struct_add_field (h : heap) (self : ref) (name : string)
    (obj : ref) : result heap :=
  t ← get_table h self;
  Ok (<[self := TableObj (set_cols t (dict_set (cols t) name obj))]> h).

Fixpoint dict_del {V} (d : list (string * V)) (k : string)
  : list (string * V) :=
  match d with
  | nil => nil
  | (k', v) :: d' => if decide (k' = k) then d' else (k', v) :: dict_del d' k
  end.

(** Modelled from the spec: [Struct.remove_field] is not part of table.py; it
    takes the field out of the mapping, and a missing name is a [KeyError]. *)
Definition Struct_remove_field (h : heap) (self : ref) (name : string)
    (delete : bool) : result heap :=
  t ← get_table h self;
  match dict_get (cols t) name with
  | Some _ => Ok (<[self := TableObj (set_cols t (dict_del (cols t) name))]> h)
  | None => Raise KeyError
  end.

(** [Table.add_field(name, obj, use_obj_size)]; the [UserWarning] about the
    differing lengths changes no object. *)
Definition Table_add_field (fuel : nat) (h : heap) (self : ref)
    (name : string) (obj : ref) (use_obj_size : bool) : result heap :=
  match h !! obj with
  | None => Raise ReferenceError
  | Some o =>
      if negb (has_len o) then Raise TypeError
      else
        h1 ← Struct_add_field h self name obj;
        t1 ← get_table h1 self;
        h2 ← match size t1 with
             | None => l ← len h1 obj; assign_size h1 self (Some l)
             | Some _ => Ok h1
             end;
        t2 ← get_table h2 self;
        l ← len h2 obj;
        if decide (size t2 <> Some l) then
          let new_size := if use_obj_size then Some l else size t2 in
          Table_resize fuel h2 self new_size false
        else Ok h2
  end.

Definition Table_add_column (fuel : nat) (h : heap) (self : ref)
    (name : string) (obj : ref) (use_obj_size : bool) : result heap :=
  Table_add_field fuel h self name obj use_obj_size.

Definition Table_remove_column (h : heap) (self : ref) (name : string)
    (delete : bool) : result heap :=
  Struct_remove_field h self name delete.

(** ** Join *)

(** [other_table[name]] *)
Definition getitem (h : heap) (table : ref) (name : string) : result ref :=
  t ← get_table h table;
  match dict_get (cols t) name with
  | Some r => Ok r
  | None => Raise KeyError
  end.

(** [for name in cols: self.add_column(name, other_table[name])] *)
Fixpoint join_loop (fuel : nat) (names : list string) (h : heap)
    (self other_table : ref) : result heap :=
  match names with
  | nil => Ok h
  | name :: rest =>
      obj ← getitem h other_table name;
      h' ← Table_add_column fuel h self name obj false;
      join_loop fuel rest h' self other_table
  end.

(** [Table.join(other_table, cols, do_warn)]; the comparison of the two
    cursors only decides whether a warning is logged. *)
Definition Table_join (fuel : nat) (h : heap) (self other_table : ref)
    (cols_arg : option (list string)) (do_warn : bool) : result heap :=
  other ← get_table h other_table;
  me ← get_table h self;
  let names := match cols_arg with
               | None => dict_keys (cols other)
               | Some c => c
               end in
  join_loop fuel names h self other_table.

(** ** Third-party views *)

(** Values handed to and returned by the expression engines. *)
Inductive pyval :=
  | PyNumber (z : Z)          (* a Python or NumPy scalar: [np.isscalar] holds *)
  | PyNdarray (a : ndarray)   (* a [numpy.ndarray] *)
  | PyAk (a : akarray)        (* an [ak.Array] *)
  | PyObject.                 (* any other object *)

(** What table.py calls but does not define: pandas, Awkward, and the
    [view_as] of the column types other than [Table]. *)
Class Libraries := {
  Series : Type;
  DataFrame : Type;
  AkRecords : Type;
  (* [pd.DataFrame()] and [pd.DataFrame(tmp_ser)] *)
  pd_DataFrame : DataFrame;
  pd_DataFrame_of : Series -> DataFrame;
  (* [df.empty], [ser.rename(name)], [df.join(other)], [df[name] = value] *)
  df_empty : DataFrame -> bool;
  ser_rename : Series -> string -> Series;
  df_join_ser : DataFrame -> Series -> result DataFrame;
  df_join_df : DataFrame -> DataFrame -> result DataFrame;
  df_setitem_ser : DataFrame -> string -> Series -> result DataFrame;
  df_setitem_df : DataFrame -> string -> DataFrame -> result DataFrame;
  (* [column.view_as("pd", with_units=with_units)] of a column that is not a Table *)
  column_view_pd : lgdo -> bool -> result Series;
  (* [column.view_as(library, with_units=False)] of a column that is not a Table,
     for [library] "np" or "ak" *)
  column_view_as : lgdo -> string -> result pyval;
  (* [ak.Array(self)] *)
  ak_Array : list (string * lgdo) -> result AkRecords
}.

Inductive view `{Libraries} :=
  | ViewDataFrame (df : DataFrame)
  | ViewAk (a : AkRecords).

(** [isinstance(column, (Array, VectorOfVectors))];
    [ArrayOfEqualSizedArrays] derives from [Array]. *)
Definition is_Array_or_VoV (o : lgdo) : bool :=
  match o with
  | Array _ | ArrayOfEqualSizedArrays _ | VectorOfVectors _ => true
  | _ => false
  end.

Section ViewLoop.
Context `{Libraries}.
(** [column.view_as("pd", with_units=with_units, prefix=...)] for a column
    that is itself a [Table]. *)
Variable view_table_pd : heap -> ref -> string -> result DataFrame.

(** The body of [for col in cols] in the ["pd"] branch. *)
Fixpoint view_pd_loop (h : heap) (t : Table) (with_units : bool)
    (prefix : string) (names : list string) (df : DataFrame)
  : result DataFrame :=
  match names with
  | nil => Ok df
  | col :: rest =>
      match dict_get (cols t) col with
      | None => Raise KeyError
      | Some r =>
          match h !! r with
          | None => Raise ReferenceError
          | Some (TableObj _) =>
              tmp_df ← view_table_pd h r (prefix +:+ col +:+ "_");
              df' ← (if df_empty df then Ok tmp_df else df_join_df df tmp_df);
              view_pd_loop h t with_units prefix rest df'
          | Some column =>
              if is_Array_or_VoV column then
                ser ← column_view_pd column with_units;
                let tmp_ser := ser_rename ser (prefix +:+ col) in
                df' ← (if df_empty df then Ok (pd_DataFrame_of tmp_ser)
                       else df_join_ser df tmp_ser);
                view_pd_loop h t with_units prefix rest df'
              else if df_empty df then
                ser ← column_view_pd column with_units;
                df' ← df_setitem_ser df (prefix +:+ col) ser;
                view_pd_loop h t with_units prefix rest df'
              else
                ser ← column_view_pd column with_units;
                joined ← df_join_ser df ser;
                df' ← df_setitem_df df (prefix +:+ col) joined;
                view_pd_loop h t with_units prefix rest df'
          end
      end
  end.
End ViewLoop.

(** [Table.view_as(library, with_units, cols, prefix)].  [fuel] bounds the
    recursion of the ["pd"] branch into nested tables. *)
Fixpoint Table_view_as `{Libraries} (fuel : nat) (h : heap) (self : ref)
    (library : string) (with_units : bool) (cols_arg : option (list string))
    (prefix : string) : result view :=
  if decide (library = "pd") then
    match fuel with
    | O => Raise RecursionError
    | S fuel' =>
        t ← get_table h self;
        let names := match cols_arg with
                     | None => dict_keys (cols t)
                     | Some c => c
                     end in
        df ← view_pd_loop
               (fun h r prefix' =>
                  v ← Table_view_as fuel' h r "pd" with_units None prefix';
                  match v with
                  | ViewDataFrame d => Ok d
                  | ViewAk _ => Raise TypeError
                  end)
               h t with_units prefix names pd_DataFrame;
        Ok (ViewDataFrame df)
    end
  else if decide (library = "np") then Raise TypeError
  else if decide (library = "ak") then
    if with_units then Raise ValueError
    else
      t ← get_table h self;
      fields ← mapM (fun kv : string * ref =>
                       match h !! kv.2 with
                       | Some o => Ok (kv.1, o)
                       | None => Raise ReferenceError
                       end) (cols t);
      a ← ak_Array fields;
      Ok (ViewAk a)
  else Raise TypeError.

(** ** Expression evaluation *)

(** Python's compiler and the two expression engines; [expr] stays a string
    and the engines read their variables from a dictionary. *)
Class Engines := {
  (* [compile(expr, ..., "eval").co_names] *)
  co_names : string -> result (list string);
  (* [ne.evaluate(expr, local_dict=...)] *)
  ne_evaluate : string -> gmap string pyval -> result ndarray;
  (* [eval(expr, {"ak": ak, "np": np}, locals)] *)
  py_eval : string -> gmap string pyval -> result pyval
}.

(** [a | b] on dictionaries: the entries of [b] win.  The union of stdpp
    prefers its left operand. *)
Definition dict_or (a b : gmap string pyval) : gmap string pyval := b ∪ a.

(** [out_data.item()] of an array without dimensions *)
Definition item (a : ndarray) : Z := default 0 (head (items a)).

(** [out_data.to_numpy()] *)
Definition ak_to_numpy (a : akarray) : result ndarray :=
  match a with
  | AkLeaf xs => Ok (mk_ndarray (length xs :: nil) xs)
  | AkNest _ => Raise ValueError
  end.

(** The conversion back to an LGDO on the numexpr path. *)
Definition wrap_numexpr (out_data : ndarray) : result lgdo :=
  if decide (ndim out_data = 0%nat) then Ok (Scalar (item out_data))
  else if decide (ndim out_data = 1%nat) then Ok (Array out_data)
  else if decide (ndim out_data = 2%nat) then
    Ok (ArrayOfEqualSizedArrays out_data)
  else Raise RuntimeError.

(** The conversion back to an LGDO on the [eval] path. *)
Definition wrap_python (out_data : pyval) : result lgdo :=
  match out_data with
  | PyAk a =>
      if decide (ak_ndim a = 1%nat) then
        nda ← ak_to_numpy a; Ok (Array nda)
      else Ok (VectorOfVectors a)
  | PyNumber z => Ok (Scalar z)
  | PyNdarray _ | PyObject => Raise RuntimeError
  end.

Section Eval.
Context `{Libraries} `{Engines}.

(** [self[obj].view_as(library, with_units=False)]; the libraries asked for
    here, "np" and "ak", never reach the recursive branch of
    [Table.view_as]. *)
Definition lgdo_view_as (h : heap) (r : ref) (library : string)
  : result pyval :=
  match h !! r with
  | None => Raise ReferenceError
  | Some (TableObj _) =>
      _ ← Table_view_as 0 h r library false None "";
      Ok PyObject
  | Some o => column_view_as o library
  end.

(** [for obj in c.co_names], threading [self_unwrap] and [has_ak]. *)
Fixpoint unwrap_loop (h : heap) (t : Table) (names : list string)
    (self_unwrap : gmap string pyval) (has_ak : bool)
  : result (gmap string pyval * bool) :=
  match names with
  | nil => Ok (self_unwrap, has_ak)
  | obj :: rest =>
      match dict_get (cols t) obj with
      | None => unwrap_loop h t rest self_unwrap has_ak
      | Some r =>
          match h !! r with
          | None => Raise ReferenceError
          | Some (VectorOfVectors _) =>
              v ← lgdo_view_as h r "ak";
              unwrap_loop h t rest (<[obj := v]> self_unwrap) true
          | Some _ =>
              v ← lgdo_view_as h r "np";
              unwrap_loop h t rest (<[obj := v]> self_unwrap) has_ak
          end
      end
  end.

(** The numexpr path: evaluate, then wrap by the number of dimensions. *)
Definition eval_numexpr (expr : string) (local_dict : gmap string pyval)
  : result lgdo :=
  out_data ← ne_evaluate expr local_dict;
  wrap_numexpr out_data.

(** The [eval] path. *)
Definition eval_python (expr : string) (locals : gmap string pyval)
  : result lgdo :=
  out_data ← py_eval expr locals;
  wrap_python out_data.

(** [Table.eval(expr, parameters)] *)
Definition Table_eval (h : heap) (self : ref) (expr : string)
    (parameters : option (gmap string pyval)) : result lgdo :=
  let parameters := default ∅ parameters in
  c_co_names ← co_names expr;
  t ← get_table h self;
  '(self_unwrap, has_ak) ← unwrap_loop h t c_co_names ∅ false;
  if negb has_ak then eval_numexpr expr (dict_or self_unwrap parameters)
  else eval_python expr (dict_or self_unwrap parameters).

(** The dictionary both engines receive: the second component of
    [unwrap_loop] only chooses the engine. *)
Definition eval_env (h : heap) (self : ref) (expr : string)
    (parameters : option (gmap string pyval))
  : result (gmap string pyval * bool) :=
  c_co_names ← co_names expr;
  t ← get_table h self;
  '(self_unwrap, has_ak) ← unwrap_loop h t c_co_names ∅ false;
  Ok (dict_or self_unwrap (default ∅ parameters), has_ak).
End Eval.

(** ** A concrete instance: sums of names

    To run [Table.eval] on concrete inputs the engines are instantiated for
    expressions of the form [x + y + ...] over names, with NumPy's
    elementwise addition and broadcasting of scalars. *)

Fixpoint parse_sum (tokens : list string) : result (list string) :=
  match tokens with
  | nil => Raise SyntaxError
  | x :: rest =>
      if decide (x = "+") then Raise SyntaxError
      else match rest with
           | nil => Ok (x :: nil)
           | plus :: rest' =>
               if decide (plus = "+") then
                 xs ← parse_sum rest'; Ok (x :: xs)
               else Raise SyntaxError
           end
  end.

Definition nd_of_pyval (v : pyval) : result ndarray :=
  match v with
  | PyNumber z => Ok (mk_ndarray nil (z :: nil))
  | PyNdarray a => Ok a
  | PyAk _ | PyObject => Raise TypeError
  end.

Definition nd_add (a b : ndarray) : result ndarray :=
  if decide (shape a = shape b) then
    Ok (mk_ndarray (shape a) (zip_with Z.add (items a) (items b)))
  else if decide (shape a = nil) then
    Ok (mk_ndarray (shape b) (map (Z.add (item a)) (items b)))
  else if decide (shape b = nil) then
    Ok (mk_ndarray (shape a) (map (fun x => x + item b) (items a)))
  else Raise ValueError.

Fixpoint sum_values (missing : exn) (env : gmap string pyval)
    (names : list string) (acc : ndarray) : result ndarray :=
  match names with
  | nil => Ok acc
  | x :: rest =>
      match env !! x with
      | None => Raise missing
      | Some v =>
          a ← nd_of_pyval v;
          acc' ← nd_add acc a;
          sum_values missing env rest acc'
      end
  end.

Definition sum_expr (missing : exn) (expr : string) (env : gmap string pyval)
  : result ndarray :=
  names ← parse_sum (String.words expr);
  match names with
  | nil => Raise SyntaxError
  | x :: rest =>
      match env !! x with
      | None => Raise missing
      | Some v => a ← nd_of_pyval v; sum_values missing env rest a
      end
  end.

(** What Python hands back for a NumPy result: a scalar when there is no
    dimension, the array otherwise. *)
Definition py_of_ndarray (a : ndarray) : pyval :=
  if decide (ndim a = 0%nat) then PyNumber (item a) else PyNdarray a.

#[export] Instance sum_engines : Engines := {
  co_names expr := parse_sum (String.words expr);
  ne_evaluate expr env := sum_expr KeyError expr env;
  py_eval expr env := a ← sum_expr NameError expr env; Ok (py_of_ndarray a)
}.

(** The column views of the instance: arrays as NumPy arrays, ragged columns
    as Awkward arrays; pandas and record arrays are not interpreted. *)
#[export] Instance plain_libraries : Libraries := {
  Series := unit;
  DataFrame := unit;
  AkRecords := unit;
  pd_DataFrame := tt;
  pd_DataFrame_of _ := tt;
  df_empty _ := true;
  ser_rename s _ := s;
  df_join_ser _ _ := Ok tt;
  df_join_df _ _ := Ok tt;
  df_setitem_ser _ _ _ := Ok tt;
  df_setitem_df _ _ _ := Ok tt;
  column_view_pd _ _ := Ok tt;
  column_view_as o library :=
    match o with
    | Array a | ArrayOfEqualSizedArrays a =>
        if decide (library = "np") then Ok (PyNdarray a) else Raise TypeError
    | VectorOfVectors d =>
        if decide (library = "ak") then Ok (PyAk d) else Raise TypeError
    | _ => Raise TypeError
    end;
  ak_Array _ := Ok tt
}.

(** ** Observations used by the statements *)

(** [push_row()] called [n] times in a row. *)
Fixpoint push_rows (n : nat) (h : heap) (self : ref) : result heap :=
  match n with
  | O => Ok h
  | S n' => h' ← Table_push_row h self; push_rows n' h' self
  end.

(** The value of [obj.__len__()] for the object behind a reference. *)
Definition length_at (h : heap) (r : ref) : option Z :=
  o ← h !! r; length_of o.

Definition size_at (h : heap) (r : ref) : option Z :=
  match h !! r with
  | Some (TableObj t) => size t
  | _ => None
  end.

Definition cols_at (h : heap) (r : ref) : option (list (string * ref)) :=
  match h !! r with
  | Some (TableObj t) => Some (cols t)
  | _ => None
  end.

(** The size invariant of a table: it has a size as soon as it has a column,
    and every column has that length. *)
Definition table_inv (h : heap) (self : ref) : Prop :=
  match h !! self with
  | Some (TableObj t) =>
      Forall (fun kv : string * ref =>
                is_Some (size t) /\ length_at h kv.2 = size t) (cols t)
  | _ => False
  end.

#[export] Instance table_inv_dec h self : Decision (table_inv h self).
Proof.
  unfold table_inv. destruct (h !! self) as [[| | | |t]|]; apply _.
Defined.

(** *** What a call of [resize] with target [n] may change

    Every write of such a call gives some object the length [n], so an
    object of length [n] keeps it, and no field mapping changes. *)

Definition keeps_length (n : Z) (h h' : heap) : Prop :=
  forall r, length_at h r = Some n -> length_at h' r = Some n.

Definition same_fields (h h' : heap) : Prop :=
  forall r, cols_at h' r = cols_at h r.

(** An object of length [n] whose fields, if it is a table, all have
    length [n]. *)
Definition settled (n : Z) (h : heap) (r : ref) : Prop :=
  length_at h r = Some n /\
  forall cs, cols_at h r = Some cs ->
    Forall (fun kv : string * ref => length_at h kv.2 = Some n) cs.

(** Whatever has reached the length [n] during the call is settled. *)
Definition newly_settled (n : Z) (h h' : heap) : Prop :=
  forall r, length_at h r <> Some n -> length_at h' r = Some n -> settled n h' r.

(** No object is allocated either. *)
Definition resize_step (n : Z) (h h' : heap) : Prop :=
  keeps_length n h h' /\ same_fields h h' /\ newly_settled n h h' /\
  dom h' = dom h.

Definition resize_post (n : Z) (obj : ref) (h h' : heap) : Prop :=
  resize_step n h h' /\ length_at h' obj = Some n.

(** *** Stores on which [resize] returns

    [resizable h d r]: [len] succeeds on the object behind [r], and if it is
    a table the same holds of its columns, tables being nested at most [d]
    deep below it (so there is no cycle). *)

Definition fields_of (o : lgdo) : option (list (string * ref)) :=
  match o with
  | TableObj t => Some (cols t)
  | _ => None
  end.

Fixpoint resizable (h : heap) (d : nat) (r : ref) : Prop :=
  match h !! r with
  | None => False
  | Some o =>
      returns (len_obj o) /\
      match fields_of o with
      | None => True
      | Some cs =>
          match d with
          | O => False
          | S d' => Forall (fun kv : string * ref => resizable h d' kv.2) cs
          end
      end
  end.

Definition columns_resizable (h : heap) (d : nat) (self : ref) : Prop :=
  match h !! self with
  | Some (TableObj t) =>
      Forall (fun kv : string * ref => resizable h d kv.2) (cols t)
  | _ => False
  end.

Definition keeps_resizable (h h' : heap) : Prop :=
  forall d r, resizable h d r -> resizable h' d r.

(** Whether a name of the expression is a column of the table that is a
    [VectorOfVectors]. *)
Definition refers_ragged (h : heap) (t : Table) (name : string) : bool :=
  match dict_get (cols t) name with
  | Some r =>
      match h !! r with
      | Some (VectorOfVectors _) => true
      | _ => false
      end
  | None => false
  end.

(** The object [table[name]] itself. *)
Definition getitem_obj (h : heap) (table : ref) (name : string) : result lgdo :=
  r ← getitem h table name;
  match h !! r with
  | Some o => Ok o
  | None => Raise ReferenceError
  end.

(** ** Concrete stores for the examples *)

Definition array_of (xs : list Z) : lgdo :=
  Array (mk_ndarray (length xs :: nil) xs).

(** [Table(col_dict={"a": Array([1,2,3]), "b": Array([10,20,30])})] at
    reference 2. *)
Definition store_ab : heap :=
  <[2%nat := TableObj (mk_Table (Some 3) 0
                         (("a", 0%nat) :: ("b", 1%nat) :: nil) nil)]>
  (<[1%nat := array_of (10 :: 20 :: 30 :: nil)]>
  (<[0%nat := array_of (1 :: 2 :: 3 :: nil)]> ∅)).

(** The same table with the ragged column [[5], [6, 7], [8, 9, 0]] as "b". *)
Definition store_ragged : heap :=
  <[2%nat := TableObj (mk_Table (Some 3) 0
                         (("a", 0%nat) :: ("b", 1%nat) :: nil) nil)]>
  (<[1%nat := VectorOfVectors
                (AkNest (AkLeaf (5 :: nil) :: AkLeaf (6 :: 7 :: nil)
                         :: AkLeaf (8 :: 9 :: 0 :: nil) :: nil))]>
  (<[0%nat := array_of (1 :: 2 :: 3 :: nil)]> ∅)).

(** A table at reference 1 whose only column "t" is the empty table at
    reference 0. *)
Definition store_nested : heap :=
  <[1%nat := TableObj (mk_Table (Some 3) 0 (("t", 0%nat) :: nil) nil)]>
  (<[0%nat := TableObj (mk_Table (Some 3) 0 nil nil)]> ∅).

(** [store_ab] and an array of five rows at reference 3. *)
Definition store_abc : heap :=
  <[3%nat := array_of (1 :: 2 :: 3 :: 4 :: 5 :: nil)]> store_ab.

(** [store_ab] and a table without columns, of size 3, at reference 3. *)
Definition store_join : heap :=
  <[3%nat := TableObj (mk_Table (Some 3) 0 nil nil)]> store_ab.

(** Two tables that share a column:
    [a = Array([1,2,3]); t1 = Table(col_dict={"a": a}); t2 = Table(size=5);
     t2.add_field("a", a); t1.add_field("b", Array([7,8,9]))].
    The result is [t1] and the final store. *)
Definition shared_column_run : result (ref * heap) :=
  let '(a, h1) := alloc ∅ (array_of (1 :: 2 :: 3 :: nil)) in
  '(t1, h2) ← Table_init 1 h1 None (Some (("a", a) :: nil)) None;
  '(t2, h3) ← Table_init 1 h2 (Some 5) None None;
  h4 ← Table_add_field 1 h3 t2 "a" a false;
  let '(b, h5) := alloc h4 (array_of (7 :: 8 :: 9 :: nil)) in
  h6 ← Table_add_field 1 h5 t1 "b" b false;
  Ok (t1, h6).

(** *** What a call of [resize] leaves alone

    The cursor, the fields and the attributes of a table; and every object
    that is not resized. *)

Definition frame_at (h : heap) (r : ref)
  : option (Z * list (string * ref) * list (string * string)) :=
  match h !! r with
  | Some (TableObj t) => Some (loc t, cols t, attrs t)
  | _ => None
  end.

Definition same_tables (h h' : heap) : Prop :=
  forall r, frame_at h' r = frame_at h r.

(** Every object is as it was, or went from another length to [n]. *)
Definition resized_only (n : Z) (h h' : heap) : Prop :=
  forall r, h' !! r = h !! r \/
            (length_at h r <> Some n /\ length_at h' r = Some n).

Definition resize_changes (n : Z) (h h' : heap) : Prop :=
  same_tables h h' /\ resized_only n h h'.


(** [Table.get_dataframe(cols, copy, prefix)]; the [DeprecationWarning]
    changes nothing and [copy] is not used. *)
Definition Table_get_dataframe `{Libraries} (fuel : nat) (h : heap)
    (self : ref) (cols_arg : option (list string)) (copy : bool)
    (prefix : string) : result view :=
  Table_view_as fuel h self "pd" false cols_arg prefix.

(** The view of a column that the loop of [eval] stores. *)
Definition unwrap_view `{Libraries} (h : heap) (r : ref) : result pyval :=
  match h !! r with
  | Some (VectorOfVectors _) => lgdo_view_as h r "ak"
  | _ => lgdo_view_as h r "np"
  end.

(** A table that is its own column "me". *)
Definition store_cycle : heap :=
  {[ 0%nat := TableObj (mk_Table (Some 3) 0 (("me", 0%nat) :: nil) nil) ]}.


(** * Theorems *)

Lemma bind_ok {A B} (m : result A) (k : A -> result B) b :
  m ≫= k = Ok b -> exists a, m = Ok a /\ k a = Ok b.
Proof. destruct m; simpl; [eauto | discriminate]. Qed.

Lemma get_table_ok h r t : get_table h r = Ok t <-> h !! r = Some (TableObj t).
Proof.
  unfold get_table. destruct (h !! r) as [[| | | |t']|]; split; intros E;
    try discriminate; congruence.
Qed.

Lemma set_loc_id t : set_loc t (loc t) = t.
Proof. by destruct t. Qed.

Lemma set_loc_set_loc t a b : set_loc (set_loc t a) b = set_loc t b.
Proof. done. Qed.

(** *** The row cursor *)

Lemma assign_loc_ok h self t v :
  h !! self = Some (TableObj t) ->
  assign_loc h self v = Ok (<[self := TableObj (set_loc t v)]> h).
Proof.
  intros E. unfold assign_loc. apply get_table_ok in E. by rewrite E.
Qed.

Lemma push_row_ok h self t :
  h !! self = Some (TableObj t) ->
  Table_push_row h self = Ok (<[self := TableObj (set_loc t (loc t + 1))]> h).
Proof.
  intros E. unfold Table_push_row.
  rewrite (proj2 (get_table_ok _ _ _) E). simpl. by apply assign_loc_ok.
Qed.

Lemma push_rows_ok n : forall h self t,
  h !! self = Some (TableObj t) ->
  push_rows n h self =
    Ok (<[self := TableObj (set_loc t (loc t + Z.of_nat n))]> h).
Proof.
  induction n as [|n IH]; intros h self t E.
  - simpl. rewrite Z.add_0_r, set_loc_id. f_equal. symmetry. by apply insert_id.
  - cbn [push_rows]. rewrite (push_row_ok _ _ _ E). simpl.
    rewrite (IH _ self (set_loc t (loc t + 1))) by apply lookup_insert_eq.
    rewrite insert_insert_eq. simpl. rewrite set_loc_set_loc.
    do 4 f_equal. lia.
Qed.

Lemma is_full_ok h self t s :
  h !! self = Some (TableObj t) -> size t = Some s ->
  Table_is_full h self = Ok (loc t >=? s).
Proof.
  intros E Hs. unfold Table_is_full.
  rewrite (proj2 (get_table_ok _ _ _) E). simpl. by rewrite Hs.
Qed.

Lemma init_loc fuel h sz col_dict ats self h' :
  Table_init fuel h sz col_dict ats = Ok (self, h') ->
  exists t, h' !! self = Some (TableObj t) /\ loc t = 0.
Proof.
  unfold Table_init, alloc. intros E.
  apply bind_ok in E as (h1 & _ & E). apply bind_ok in E as (h2 & E & E2).
  injection E2 as <- <-. unfold assign_loc in E.
  apply bind_ok in E as (t & Et & E). injection E as <-.
  eexists. split; [apply lookup_insert_eq | done].
Qed.

(** C8.  The cursor [loc] is 0 after construction whatever the size;
    [push_row] adds exactly 1 to it without any upper bound; [clear] puts it
    back to 0; [is_full] is [loc >= size].  Hence, for a table whose size is
    positive, [size] calls of [push_row] after a [clear] make [is_full]
    true, and a [clear] after that makes it false. *)
Theorem cursor_push_clear_is_full (h : heap) (self : ref) (t : Table) (s : Z) :
  h !! self = Some (TableObj t) -> size t = Some s -> 0 < s ->
  (forall fuel h0 sz col_dict ats self' h',
     Table_init fuel h0 sz col_dict ats = Ok (self', h') ->
     exists t', h' !! self' = Some (TableObj t') /\ loc t' = 0) /\
  Table_push_row h self = Ok (<[self := TableObj (set_loc t (loc t + 1))]> h) /\
  Table_clear h self = Ok (<[self := TableObj (set_loc t 0)]> h) /\
  Table_is_full h self = Ok (loc t >=? s) /\
  exists h1 h2 h3,
    Table_clear h self = Ok h1 /\
    push_rows (Z.to_nat s) h1 self = Ok h2 /\
    Table_is_full h2 self = Ok true /\
    Table_clear h2 self = Ok h3 /\
    Table_is_full h3 self = Ok false.
Proof.
  intros E Hs Hpos.
  split; [intros; by eapply init_loc|].
  split; [by apply push_row_ok|].
  split; [by apply assign_loc_ok|].
  split; [by apply is_full_ok|].
  set (h1 := <[self := TableObj (set_loc t 0)]> h).
  set (t2 := set_loc (set_loc t 0) (0 + Z.of_nat (Z.to_nat s))).
  set (h2 := <[self := TableObj t2]> h1).
  exists h1, h2, (<[self := TableObj (set_loc t2 0)]> h2).
  split; [by apply assign_loc_ok|].
  split; [by apply (push_rows_ok _ h1 self (set_loc t 0)), lookup_insert_eq|].
  split.
  { rewrite (is_full_ok h2 self t2 s); [|apply lookup_insert_eq|done].
    f_equal. simpl. apply Z.geb_le. lia. }
  split; [by apply assign_loc_ok, lookup_insert_eq|].
  rewrite (is_full_ok _ self (set_loc t2 0) s); [|apply lookup_insert_eq|done].
  f_equal. simpl. rewrite Z.geb_leb. apply Z.leb_gt. lia.
Qed.

Lemma cursor_push_clear_is_full_witness :
  let t := mk_Table (Some 2) 0 nil nil in
  let h : heap := {[ 0%nat := TableObj t ]} in
  h !! 0%nat = Some (TableObj t) /\ size t = Some 2 /\ 0 < 2 /\
  exists h1 h2 h3,
    Table_clear h 0%nat = Ok h1 /\
    push_rows (Z.to_nat 2) h1 0%nat = Ok h2 /\
    Table_is_full h2 0%nat = Ok true /\
    Table_clear h2 0%nat = Ok h3 /\
    Table_is_full h3 0%nat = Ok false.
Proof.
  intros t h.
  assert (E : h !! 0%nat = Some (TableObj t)) by reflexivity.
  assert (Hs : size t = Some 2) by reflexivity.
  assert (Hpos : 0 < 2) by lia.
  split; [exact E|]. split; [exact Hs|]. split; [exact Hpos|].
  exact (proj2 (proj2 (proj2 (proj2
    (cursor_push_clear_is_full h 0%nat t 2 E Hs Hpos))))).
Defined.

(** *** Construction without columns *)

Lemma assign_size_ok h self t s :
  h !! self = Some (TableObj t) ->
  assign_size h self s = Ok (<[self := TableObj (set_size t s)]> h).
Proof.
  intros E. unfold assign_size. by rewrite (proj2 (get_table_ok _ _ _) E).
Qed.

Lemma init_no_columns fuel h sz col_dict ats :
  col_dict = None \/ col_dict = Some nil ->
  Table_init fuel h sz col_dict ats =
    Ok (fresh (dom h),
        <[fresh (dom h) := TableObj (mk_Table sz 0 nil (default nil ats))]> h).
Proof.
  intros Hc. unfold Table_init, alloc.
  assert (Struct_init col_dict ats = mk_Table None 0 nil (default nil ats))
    as -> by (by destruct Hc as [-> | ->]).
  assert (match sz with Some s => Some s | None => None end = sz) as Hsz
    by (by destruct sz).
  set (self := fresh (dom h)).
  set (t0 := mk_Table None 0 nil (default nil ats)).
  assert (assign_size (<[self := TableObj t0]> h) self sz
          = Ok (<[self := TableObj (set_size t0 sz)]> h)) as Ha.
  { rewrite (assign_size_ok _ self t0) by apply lookup_insert_eq.
    by rewrite insert_insert_eq. }
  assert (forall X : result heap,
            X = assign_size (<[self := TableObj t0]> h) self sz ->
            (X ≫= fun h1 => assign_loc h1 self 0 ≫= fun h2 => Ok (self, h2))
            = Ok (self, <[self := TableObj (mk_Table sz 0 nil (default nil ats))]> h))
    as Hk.
  { intros X ->. rewrite Ha. simpl.
    rewrite (assign_loc_ok _ self (set_size t0 sz)) by apply lookup_insert_eq.
    simpl. by rewrite insert_insert_eq. }
  destruct Hc as [-> | ->]; simpl; apply Hk; by rewrite Hsz.
Qed.

(** C2 (the code departs from its documentation).  Constructed without
    columns, a table gets exactly the [size] argument as its size: the given
    value when there is one, and Python's [None], not 1024, when there is
    none. *)
Theorem init_without_columns_size (fuel : nat) (h : heap)
    (ats : option (list (string * string))) (n : Z) :
  (exists self h', Table_init fuel h None None ats = Ok (self, h') /\
     size_at h' self = None /\ size_at h' self <> Some 1024) /\
  (exists self h', Table_init fuel h None (Some nil) ats = Ok (self, h') /\
     size_at h' self = None /\ size_at h' self <> Some 1024) /\
  (exists self h', Table_init fuel h (Some n) None ats = Ok (self, h') /\
     size_at h' self = Some n) /\
  (exists self h', Table_init fuel h (Some n) (Some nil) ats = Ok (self, h') /\
     size_at h' self = Some n).
Proof.
  repeat split; eexists _, _;
    (split; [apply init_no_columns; auto|]);
    unfold size_at; rewrite lookup_insert_eq; done.
Qed.

(** *** Views *)

(** C7, as the code has it.  On any table, [view_as("np")] raises a
    [TypeError]; [view_as("ak", with_units=True)] raises a [ValueError];
    [view_as] with a library other than "pd", "np" and "ak" raises a
    [TypeError]. *)
Theorem view_as_errors `{Libraries} (fuel : nat) (h : heap) (self : ref)
    (library : string) (with_units : bool) (cols_arg : option (list string))
    (prefix : string) :
  (library = "np" ->
   Table_view_as fuel h self library with_units cols_arg prefix
     = Raise TypeError) /\
  (library = "ak" -> with_units = true ->
   Table_view_as fuel h self library with_units cols_arg prefix
     = Raise ValueError) /\
  (library <> "pd" -> library <> "np" -> library <> "ak" ->
   Table_view_as fuel h self library with_units cols_arg prefix
     = Raise TypeError).
Proof.
  split; [|split].
  - intros ->. by destruct fuel.
  - intros -> ->. by destruct fuel.
  - intros Hpd Hnp Hak. destruct fuel; simpl;
      repeat case_decide; congruence.
Qed.

Lemma view_as_errors_witness :
  Table_view_as 0 ∅ 0%nat "np" false None "" = Raise TypeError /\
  Table_view_as 0 ∅ 0%nat "ak" true None "" = Raise ValueError /\
  Table_view_as 0 ∅ 0%nat "root" false None "" = Raise TypeError.
Proof.
  split; [|split].
  - exact (proj1 (view_as_errors 0 ∅ 0%nat "np" false None "") eq_refl).
  - exact (proj1 (proj2 (view_as_errors 0 ∅ 0%nat "ak" true None ""))
             eq_refl eq_refl).
  - apply (proj2 (proj2 (view_as_errors 0 ∅ 0%nat "root" false None "")));
      discriminate.
Defined.

(** The record-array format with units does not raise a [TypeError]: on the
    empty table it raises a [ValueError]. *)
Lemma view_as_ak_with_units_not_TypeError :
  let h : heap := {[ 0%nat := TableObj (mk_Table None 0 nil nil) ]} in
  Table_view_as 1 h 0%nat "ak" true None "" = Raise ValueError /\
  Table_view_as 1 h 0%nat "ak" true None "" <> Raise TypeError.
Proof. split; [reflexivity | discriminate]. Qed.

(** *** Expression evaluation *)

Section EvalFacts.
Context `{Libraries} `{Engines}.

Lemma eval_by_env h self expr parameters :
  Table_eval h self expr parameters =
    eval_env h self expr parameters ≫= fun '(env, has_ak) =>
      if negb has_ak then eval_numexpr expr env else eval_python expr env.
Proof.
  unfold Table_eval, eval_env.
  destruct (co_names expr) as [names|]; [simpl|done].
  destruct (get_table h self) as [t|]; [simpl|done].
  by destruct (unwrap_loop h t names ∅ false) as [[su b]|].
Qed.

Lemma dict_or_lookup_r (a b : gmap string pyval) k v :
  b !! k = Some v -> dict_or a b !! k = Some v.
Proof. intros E. unfold dict_or. by apply lookup_union_Some_l. Qed.

Lemma dict_or_lookup_l (a b : gmap string pyval) k :
  b !! k = None -> dict_or a b !! k = a !! k.
Proof. intros E. unfold dict_or. by apply lookup_union_r. Qed.

Lemma eval_env_parameters h self expr parameters env has_ak :
  eval_env h self expr parameters = Ok (env, has_ak) ->
  exists self_unwrap, env = dict_or self_unwrap (default ∅ parameters).
Proof.
  unfold eval_env. intros E.
  apply bind_ok in E as (names & _ & E). apply bind_ok in E as (t & _ & E).
  apply bind_ok in E as ([su b] & _ & E). injection E as <- <-. eauto.
Qed.
End EvalFacts.

(** C10.  When a name of the expression is both a column of the table and a
    key of [parameters], the dictionary handed to the engine maps it to the
    parameter's value; that dictionary is the one used on the numexpr path
    and on the [eval] path. *)
Theorem eval_parameter_shadows_column `{Libraries} `{Engines}
    (h : heap) (self : ref) (t : Table) (expr : string)
    (parameters env : gmap string pyval) (has_ak : bool)
    (name : string) (column : ref) (v : pyval) :
  h !! self = Some (TableObj t) ->
  dict_get (cols t) name = Some column ->
  parameters !! name = Some v ->
  eval_env h self expr (Some parameters) = Ok (env, has_ak) ->
  env !! name = Some v /\
  Table_eval h self expr (Some parameters) =
    (if has_ak then eval_python expr env else eval_numexpr expr env).
Proof.
  intros _ _ Hp E. split.
  - apply eval_env_parameters in E as (su & ->). by apply dict_or_lookup_r.
  - rewrite eval_by_env, E. simpl. by destruct has_ak.
Qed.

Lemma eval_parameter_shadows_column_witness :
  let parameters : gmap string pyval := {[ "a" := PyNumber 5 ]} in
  parameters !! "a" = Some (PyNumber 5) /\
  eval_env store_ab 2%nat "a + a" (Some parameters) = Ok (parameters, false) /\
  parameters !! "a" = Some (PyNumber 5) /\
  Table_eval store_ab 2%nat "a + a" (Some parameters) =
    eval_numexpr "a + a" parameters.
Proof.
  intros parameters.
  assert (Hp : parameters !! "a" = Some (PyNumber 5)) by reflexivity.
  assert (He : eval_env store_ab 2%nat "a + a" (Some parameters)
               = Ok (parameters, false)) by (vm_compute; reflexivity).
  split; [exact Hp|]. split; [exact He|].
  exact (eval_parameter_shadows_column store_ab 2%nat
           (mk_Table (Some 3) 0 (("a", 0%nat) :: ("b", 1%nat) :: nil) nil)
           "a + a" parameters parameters false "a" 0%nat (PyNumber 5)
           eq_refl eq_refl Hp He).
Defined.

Section EvalWrap.
Context `{Libraries} `{Engines}.

Lemma unwrap_loop_has_ak h t names : forall su b su' b',
  unwrap_loop h t names su b = Ok (su', b') ->
  b' = b || existsb (refers_ragged h t) names.
Proof.
  induction names as [|x names IH]; intros su b su' b' E; simpl in E.
  - injection E as <- <-. by rewrite orb_false_r.
  - simpl. unfold refers_ragged at 1.
    destruct (dict_get (cols t) x) as [r|]; [|by apply IH in E].
    destruct (h !! r) as [o|]; [|discriminate].
    destruct o; apply bind_ok in E as (v & _ & E); apply IH in E; subst b';
      simpl; by rewrite ?orb_true_r.
Qed.

Lemma eval_env_has_ak h self t expr parameters names env b :
  h !! self = Some (TableObj t) -> co_names expr = Ok names ->
  eval_env h self expr parameters = Ok (env, b) ->
  b = existsb (refers_ragged h t) names.
Proof.
  intros Et En E. unfold eval_env in E. rewrite En in E. simpl in E.
  rewrite (proj2 (get_table_ok _ _ _) Et) in E. simpl in E.
  apply bind_ok in E as ([su b0] & E & E2). injection E2 as <- <-.
  by apply unwrap_loop_has_ak in E.
Qed.

Lemma wrap_numexpr_cases a :
  wrap_numexpr a =
    match ndim a with
    | 0%nat => Ok (Scalar (item a))
    | 1%nat => Ok (Array a)
    | 2%nat => Ok (ArrayOfEqualSizedArrays a)
    | _ => Raise RuntimeError
    end.
Proof.
  unfold wrap_numexpr. destruct (ndim a) as [|[|[|n]]]; by repeat case_decide.
Qed.
End EvalWrap.

(** C5, as the code has it.  When no name of the expression is a ragged
    column, [eval] takes the numexpr path.  An error raised before there is
    a result (by the views of the columns or by the engine) is raised by
    [eval]; once the engine has returned an array, [eval] wraps it by its
    number of dimensions (0: [Scalar], 1: [Array], 2:
    [ArrayOfEqualSizedArrays]) and raises, with a [RuntimeError], exactly
    when that number is none of these. *)
Theorem eval_wraps_by_dimension `{Libraries} `{Engines}
    (h : heap) (self : ref) (t : Table) (expr : string)
    (parameters : option (gmap string pyval)) (names : list string) :
  h !! self = Some (TableObj t) ->
  co_names expr = Ok names ->
  existsb (refers_ragged h t) names = false ->
  (forall e, eval_env h self expr parameters = Raise e ->
             Table_eval h self expr parameters = Raise e) /\
  (forall env b, eval_env h self expr parameters = Ok (env, b) ->
     b = false /\
     (forall e, ne_evaluate expr env = Raise e ->
                Table_eval h self expr parameters = Raise e) /\
     (forall a, ne_evaluate expr env = Ok a ->
        Table_eval h self expr parameters =
          match ndim a with
          | 0%nat => Ok (Scalar (item a))
          | 1%nat => Ok (Array a)
          | 2%nat => Ok (ArrayOfEqualSizedArrays a)
          | _ => Raise RuntimeError
          end /\
        ((exists e, Table_eval h self expr parameters = Raise e) <->
         (3 <= ndim a)%nat) /\
        (Table_eval h self expr parameters = Raise RuntimeError <->
         (3 <= ndim a)%nat))).
Proof.
  intros Et En Hr. split.
  - intros e E. by rewrite eval_by_env, E.
  - intros env b E.
    assert (b = false) as -> by (by rewrite <- Hr; eapply eval_env_has_ak).
    split; [done|]. split.
    + intros e Ee. rewrite eval_by_env, E. simpl. unfold eval_numexpr.
      by rewrite Ee.
    + intros a Ea.
      assert (Table_eval h self expr parameters = wrap_numexpr a) as ->.
      { rewrite eval_by_env, E. simpl. unfold eval_numexpr. by rewrite Ea. }
      rewrite wrap_numexpr_cases.
      destruct (ndim a) as [|[|[|n]]]; (split; [done|]); split; split;
        try (intros [e ?]; discriminate); try discriminate; try lia; eauto.
Qed.

Lemma eval_wraps_by_dimension_witness :
  let env : gmap string pyval :=
    {[ "a" := PyNdarray (mk_ndarray (3%nat :: nil) (1 :: 2 :: 3 :: nil));
       "b" := PyNdarray (mk_ndarray (3%nat :: nil) (10 :: 20 :: 30 :: nil)) ]} in
  let sum := mk_ndarray (3%nat :: nil) (11 :: 22 :: 33 :: nil) in
  co_names "a + b" = Ok ("a" :: "b" :: nil) /\
  eval_env store_ab 2%nat "a + b" None = Ok (env, false) /\
  ne_evaluate "a + b" env = Ok sum /\
  Table_eval store_ab 2%nat "a + b" None = Ok (Array sum).
Proof.
  intros env sum.
  assert (En : co_names "a + b" = Ok ("a" :: "b" :: nil)) by reflexivity.
  assert (Ee : eval_env store_ab 2%nat "a + b" None = Ok (env, false))
    by (vm_compute; reflexivity).
  assert (Ea : ne_evaluate "a + b" env = Ok sum) by (vm_compute; reflexivity).
  split; [exact En|]. split; [exact Ee|]. split; [exact Ea|].
  exact (proj1 (proj2 (proj2 (proj2
    (eval_wraps_by_dimension store_ab 2%nat
       (mk_Table (Some 3) 0 (("a", 0%nat) :: ("b", 1%nat) :: nil) nil)
       "a + b" None ("a" :: "b" :: nil) eq_refl En eq_refl)
    env false Ee)) sum Ea)).
Defined.

(** [eval] also raises when no result of any dimensionality exists: a
    referenced column that is a nested table makes [Table.view_as("np")]
    raise a [TypeError] before the engine runs. *)
Lemma eval_raises_without_result :
  co_names "t + t" = Ok ("t" :: "t" :: nil) /\
  existsb (refers_ragged store_nested (mk_Table (Some 3) 0 (("t", 0%nat) :: nil) nil))
    ("t" :: "t" :: nil) = false /\
  Table_eval store_nested 1%nat "t + t" None = Raise TypeError /\
  ~ (exists env b a,
       eval_env store_nested 1%nat "t + t" None = Ok (env, b) /\
       ne_evaluate "t + t" env = Ok a /\ (3 <= ndim a)%nat).
Proof.
  split; [reflexivity|]. split; [reflexivity|]. split; [reflexivity|].
  intros (env & b & a & E & _). discriminate E.
Qed.

(** C9, as the code has it.  When the two engines compute the same NumPy
    value for an expression, the two paths agree only on results without
    dimensions, which both wrap as a [Scalar] of the same value.  A result
    of one or two dimensions is wrapped by the numexpr path ([Array],
    [ArrayOfEqualSizedArrays]) and refused by the [eval] path, which wraps
    Awkward arrays and scalars only and raises a [RuntimeError]; a result of
    more dimensions is refused by both. *)
Theorem eval_paths_compared `{Engines} (expr : string)
    (env : gmap string pyval) (a : ndarray) :
  ne_evaluate expr env = Ok a ->
  py_eval expr env = Ok (py_of_ndarray a) ->
  (ndim a = 0%nat ->
     eval_numexpr expr env = Ok (Scalar (item a)) /\
     eval_python expr env = Ok (Scalar (item a))) /\
  (ndim a = 1%nat ->
     eval_numexpr expr env = Ok (Array a) /\
     eval_python expr env = Raise RuntimeError) /\
  (ndim a = 2%nat ->
     eval_numexpr expr env = Ok (ArrayOfEqualSizedArrays a) /\
     eval_python expr env = Raise RuntimeError) /\
  ((3 <= ndim a)%nat ->
     eval_numexpr expr env = Raise RuntimeError /\
     eval_python expr env = Raise RuntimeError).
Proof.
  intros Ea Ep. unfold eval_numexpr, eval_python. rewrite Ea, Ep. simpl.
  rewrite wrap_numexpr_cases. unfold py_of_ndarray.
  split; [|split; [|split]]; intros Hd;
    destruct (ndim a) as [|[|[|n]]]; try lia; try discriminate Hd;
    by repeat case_decide.
Qed.

Lemma eval_paths_compared_witness :
  let env : gmap string pyval := {[ "x" := PyNumber 1; "y" := PyNumber 2 ]} in
  let three := mk_ndarray nil (3 :: nil) in
  ne_evaluate "x + y" env = Ok three /\
  py_eval "x + y" env = Ok (py_of_ndarray three) /\
  eval_numexpr "x + y" env = Ok (Scalar 3) /\
  eval_python "x + y" env = Ok (Scalar 3).
Proof.
  intros env three.
  assert (Ea : ne_evaluate "x + y" env = Ok three) by (vm_compute; reflexivity).
  assert (Ep : py_eval "x + y" env = Ok (py_of_ndarray three))
    by (vm_compute; reflexivity).
  split; [exact Ea|]. split; [exact Ep|].
  exact (proj1 (eval_paths_compared "x + y" env three Ea Ep) eq_refl).
Defined.

(** On [a = [1,2,3]] and [b = [10,20,30]] the numexpr path returns the
    [Array] [[11,22,33]] for [a + b] and the [eval] path raises.  The [eval]
    path does receive such operands: in the table whose column "b" is
    ragged, a parameter "b" replaces the column's view. *)
Lemma eval_paths_differ_on_arrays :
  let env : gmap string pyval :=
    {[ "a" := PyNdarray (mk_ndarray (3%nat :: nil) (1 :: 2 :: 3 :: nil));
       "b" := PyNdarray (mk_ndarray (3%nat :: nil) (10 :: 20 :: 30 :: nil)) ]} in
  let parameters : gmap string pyval :=
    {[ "b" := PyNdarray (mk_ndarray (3%nat :: nil) (10 :: 20 :: 30 :: nil)) ]} in
  eval_numexpr "a + b" env
    = Ok (Array (mk_ndarray (3%nat :: nil) (11 :: 22 :: 33 :: nil))) /\
  eval_python "a + b" env = Raise RuntimeError /\
  eval_numexpr "a + b" env <> eval_python "a + b" env /\
  Table_eval store_ab 2%nat "a + b" None
    = Ok (Array (mk_ndarray (3%nat :: nil) (11 :: 22 :: 33 :: nil))) /\
  eval_env store_ragged 2%nat "a + b" (Some parameters) = Ok (env, true) /\
  Table_eval store_ragged 2%nat "a + b" (Some parameters) = Raise RuntimeError.
Proof.
  intros env parameters.
  assert (E1 : eval_numexpr "a + b" env
    = Ok (Array (mk_ndarray (3%nat :: nil) (11 :: 22 :: 33 :: nil))))
    by (vm_compute; reflexivity).
  assert (E2 : eval_python "a + b" env = Raise RuntimeError)
    by (vm_compute; reflexivity).
  split; [exact E1|]. split; [exact E2|].
  split; [rewrite E1, E2; discriminate|].
  repeat split; vm_compute; reflexivity.
Qed.

(** *** The size invariant *)

(** **** Lengths after resizing a column *)

Lemma fit_length {A} (pad : A) n l : length (fit pad n l) = n.
Proof.
  unfold fit. rewrite length_app, length_take, length_replicate. lia.
Qed.

Lemma len_obj_length o l : len_obj o = Ok l -> length_of o = Some l /\ 0 <= l.
Proof.
  unfold len_obj. destruct (length_of o) as [z|]; [|discriminate].
  destruct (z <? 0) eqn:E; [discriminate|]. intros [= ->].
  apply Z.ltb_ge in E. done.
Qed.

Lemma len_length h r l : len h r = Ok l -> length_at h r = Some l /\ 0 <= l.
Proof.
  unfold len, length_at. destruct (h !! r) as [o|]; [|discriminate].
  simpl. apply len_obj_length.
Qed.

Lemma column_resize_length o n o' :
  column_resize o n = Ok o' ->
  length_of o' = Some n /\ 0 <= n /\
  (forall t, o <> TableObj t) /\ (forall t, o' <> TableObj t).
Proof.
  assert (Hn : forall a a', resize_nda a n = Ok a' ->
            exists rest, shape a' = Z.to_nat n :: rest /\ 0 <= n).
  { intros a a'. unfold resize_nda. destruct (shape a) as [|m rest]; [discriminate|].
    destruct (n <? 0) eqn:E; [discriminate|]. intros [= <-]. simpl.
    apply Z.ltb_ge in E. eauto. }
  destruct o as [v|a|a|d|t]; simpl; try discriminate; intros E.
  - apply bind_ok in E as (a' & E & [= <-]). apply Hn in E as (rest & E & ?).
    simpl. rewrite E. rewrite Z2Nat.id by done. done.
  - apply bind_ok in E as (a' & E & [= <-]). apply Hn in E as (rest & E & ?).
    simpl. rewrite E. rewrite Z2Nat.id by done. done.
  - apply bind_ok in E as (d' & E & [= <-]). unfold resize_ak in E.
    destruct (n <? 0) eqn:En; [discriminate|]. apply Z.ltb_ge in En.
    destruct d; injection E as <-; simpl; rewrite fit_length, Z2Nat.id by done; done.
Qed.

Lemma keeps_length_refl n h : keeps_length n h h.
Proof. by intros r. Qed.
Lemma keeps_length_trans n h1 h2 h3 :
  keeps_length n h1 h2 -> keeps_length n h2 h3 -> keeps_length n h1 h3.
Proof. intros H1 H2 r Hr. by apply H2, H1. Qed.
Lemma same_fields_refl h : same_fields h h.
Proof. by intros r. Qed.
Lemma same_fields_trans h1 h2 h3 :
  same_fields h1 h2 -> same_fields h2 h3 -> same_fields h1 h3.
Proof. intros H1 H2 r. by rewrite H2, H1. Qed.

Lemma settled_keep n h h' r :
  keeps_length n h h' -> same_fields h h' -> settled n h r -> settled n h' r.
Proof.
  intros K F [Hl Hc]. split; [by apply K|].
  intros cs Hcs. rewrite F in Hcs. eapply Forall_impl; [by apply Hc|].
  intros kv. apply K.
Qed.

Lemma resize_step_refl n h : resize_step n h h.
Proof.
  split; [apply keeps_length_refl|]. split; [apply same_fields_refl|].
  split; [|done]. intros r Hne Hl. done.
Qed.

Lemma resize_step_trans n h1 h2 h3 :
  resize_step n h1 h2 -> resize_step n h2 h3 -> resize_step n h1 h3.
Proof.
  intros (K1 & F1 & S1 & D1) (K2 & F2 & S2 & D2).
  split; [by eapply keeps_length_trans|]. split; [by eapply same_fields_trans|].
  split; [|congruence]. intros r Hne Hl.
  destruct (decide (length_at h2 r = Some n)) as [H2|H2].
  - eapply settled_keep; [done..|]. by apply S1.
  - by apply S2.
Qed.

Lemma length_at_insert h r o r' :
  length_at (<[r := o]> h) r' = if decide (r = r') then length_of o else length_at h r'.
Proof.
  unfold length_at. rewrite lookup_insert. by case_decide.
Qed.

Lemma cols_at_insert h r o r' :
  cols_at (<[r := o]> h) r' =
    if decide (r = r') then match o with TableObj t => Some (cols t) | _ => None end
    else cols_at h r'.
Proof.
  unfold cols_at. rewrite lookup_insert. by case_decide.
Qed.

(** **** What [resize] with a target does *)

Section Loop.
Variable rec : heap -> ref -> option Z -> result heap.
Variable n : Z.
Hypothesis rec_post : forall h o h', rec h o (Some n) = Ok h' -> resize_post n o h h'.

Lemma obj_resize_post h obj h' :
  obj_resize rec h obj n = Ok h' -> resize_post n obj h h'.
Proof.
  unfold obj_resize. destruct (h !! obj) as [o|] eqn:Eo; [|discriminate].
  assert (Hcol : (o' ← column_resize o n; Ok (<[obj := o']> h)) = Ok h' ->
                 resize_post n obj h h').
  { intros E. apply bind_ok in E as (o' & E & [= <-]).
    apply column_resize_length in E as (Hl & _ & Hnt & Hnt').
    assert (Hc : cols_at (<[obj := o']> h) obj = None).
    { rewrite cols_at_insert, decide_True by done.
      destruct o'; try done. by exfalso; eapply Hnt'. }
    split; [split; [|split; [|split]]|].
    - intros r Hr. rewrite length_at_insert. by case_decide.
    - intros r. rewrite cols_at_insert. case_decide; [subst r|done].
      unfold cols_at. rewrite Eo. destruct o, o'; try done;
        exfalso; first [by eapply Hnt | by eapply Hnt'].
    - intros r Hne Hr. rewrite length_at_insert in Hr.
      case_decide; [subst r|done]. split.
      + rewrite length_at_insert. by case_decide.
      + intros cs Hcs. congruence.
    - by eapply dom_insert_lookup_L.
    - rewrite length_at_insert. by case_decide. }
  destruct o; try exact Hcol. apply rec_post.
Qed.

Lemma resize_items_post items : forall h h' ns,
  resize_items rec items h (Some n) = Ok (h', ns) ->
  ns = Some n /\ resize_step n h h' /\
  Forall (fun kv : string * ref => length_at h' kv.2 = Some n) items.
Proof.
  induction items as [|[field obj] items IH]; intros h h' ns E; simpl in E.
  - injection E as <- <-.
    split; [done|]. split; [apply resize_step_refl|done].
  - apply bind_ok in E as (l & El & E). apply len_length in El as [El _].
    case_decide as Hl.
    + apply bind_ok in E as (h1 & E1 & E).
      apply obj_resize_post in E1 as (S1 & L1).
      apply IH in E as (-> & S2 & A).
      split; [done|]. split; [by eapply resize_step_trans|].
      constructor; [by apply (proj1 S2)|done].
    + subst l. apply IH in E as (-> & S2 & A).
      split; [done|]. split; [done|].
      constructor; [by apply (proj1 S2)|done].
Qed.
End Loop.

Lemma resize_items_none rec field obj rest h l :
  len h obj = Ok l ->
  resize_items rec ((field, obj) :: rest) h None =
  resize_items rec ((field, obj) :: rest) h (Some l).
Proof.
  intros E. simpl. rewrite E. simpl. by rewrite decide_False by (intros ?; done).
Qed.

Lemma Table_resize_post fuel : forall h self n dw h',
  Table_resize fuel h self (Some n) dw = Ok h' ->
  resize_post n self h h' /\
  exists t', h' !! self = Some (TableObj t') /\ size t' = Some n /\
    Forall (fun kv : string * ref => length_at h' kv.2 = Some n) (cols t').
Proof.
  induction fuel as [|fuel IH]; intros h self n dw h' E; [discriminate|].
  simpl in E. apply bind_ok in E as (t & Et & E).
  apply bind_ok in E as ([h1 ns] & E1 & E).
  apply resize_items_post in E1 as (-> & (K & F & N) & A);
    [|intros ??? Hr; by apply IH in Hr as [? _]].
  unfold assign_size in E. apply bind_ok in E as (t1 & Et1 & [= <-]).
  apply get_table_ok in Et, Et1.
  assert (cols t1 = cols t) as Hc.
  { specialize (F self). unfold cols_at in F. rewrite Et, Et1 in F. congruence. }
  assert (Forall (fun kv : string * ref =>
            length_at (<[self := TableObj (set_size t1 (Some n))]> h1) kv.2
              = Some n) (cols t1)) as A'.
  { rewrite Hc. eapply Forall_impl; [exact A|]. intros [f c] Hfc. simpl in *.
    rewrite length_at_insert. by case_decide. }
  assert (resize_step n h1 (<[self := TableObj (set_size t1 (Some n))]> h1)) as S2.
  { split; [|split; [|split]].
    - intros r Hr. rewrite length_at_insert. by case_decide.
    - intros r. rewrite cols_at_insert. case_decide; [subst r|done].
      simpl. unfold cols_at. by rewrite Et1.
    - intros r Hne Hr. rewrite length_at_insert in Hr.
      case_decide; [subst r|done]. split.
      + rewrite length_at_insert. by case_decide.
      + intros cs. rewrite cols_at_insert, decide_True by done. simpl.
        by intros [= <-].
    - by eapply dom_insert_lookup_L. }
  split; [split|].
  - eapply resize_step_trans; [|exact S2]. done.
  - rewrite length_at_insert. by rewrite decide_True.
  - eexists. split; [apply lookup_insert_eq|]. by split.
Qed.

(** **** [resize] without a target, and the invariant *)

Lemma Table_resize_do_warn fuel h self ns dw dw' :
  Table_resize fuel h self ns dw = Table_resize fuel h self ns dw'.
Proof. by destruct fuel. Qed.

Lemma Table_resize_none fuel h self t field obj rest l dw :
  h !! self = Some (TableObj t) -> cols t = (field, obj) :: rest ->
  len h obj = Ok l ->
  Table_resize fuel h self None dw = Table_resize fuel h self (Some l) dw.
Proof.
  intros Et Hc El. destruct fuel as [|fuel]; [done|]. simpl.
  rewrite (proj2 (get_table_ok _ _ _) Et). simpl. rewrite Hc.
  by rewrite (resize_items_none _ _ _ _ _ l).
Qed.

Lemma Table_resize_empty fuel h self t dw :
  h !! self = Some (TableObj t) -> cols t = nil ->
  Table_resize (S fuel) h self None dw
    = Ok (<[self := TableObj (set_size t None)]> h).
Proof.
  intros Et Hc. simpl. rewrite (proj2 (get_table_ok _ _ _) Et). simpl.
  rewrite Hc. simpl. by apply assign_size_ok.
Qed.

(** What a call of [resize] that returns has done. *)
Lemma Table_resize_cases fuel h self t ns dw h' :
  h !! self = Some (TableObj t) ->
  Table_resize fuel h self ns dw = Ok h' ->
  (ns = None /\ cols t = nil /\ h' = <[self := TableObj (set_size t None)]> h) \/
  (exists n, (ns = Some n \/
              ns = None /\ exists field obj rest,
                cols t = (field, obj) :: rest /\ len h obj = Ok n) /\
             Table_resize fuel h self (Some n) dw = Ok h').
Proof.
  intros Et E. destruct ns as [n|]; [right; eauto|].
  destruct (cols t) as [|[field obj] rest] eqn:Hc.
  - left. destruct fuel as [|fuel]; [discriminate|].
    rewrite (Table_resize_empty _ _ _ t) in E by done. by injection E as <-.
  - right. destruct fuel as [|fuel]; [discriminate|].
    pose proof E as E'. simpl in E'.
    rewrite (proj2 (get_table_ok _ _ _) Et) in E'. simpl in E'. rewrite Hc in E'.
    apply bind_ok in E' as ([h1 ns1] & E1 & _). simpl in E1.
    apply bind_ok in E1 as (l & El & _).
    exists l. split; [right; split; [done|]; eauto|].
    by rewrite <- (Table_resize_none _ _ _ t field obj rest l dw).
Qed.

Lemma table_inv_intro h self t n :
  h !! self = Some (TableObj t) -> size t = Some n ->
  Forall (fun kv : string * ref => length_at h kv.2 = Some n) (cols t) ->
  table_inv h self.
Proof.
  intros Et Hs A. unfold table_inv. rewrite Et.
  eapply Forall_impl; [exact A|]. intros kv Hkv. simpl in *. rewrite Hs. eauto.
Qed.

Lemma table_inv_no_columns h self t :
  h !! self = Some (TableObj t) -> cols t = nil -> table_inv h self.
Proof. intros Et Hc. unfold table_inv. rewrite Et, Hc. constructor. Qed.

Lemma Table_resize_inv fuel h self ns dw h' :
  Table_resize fuel h self ns dw = Ok h' ->
  table_inv h' self /\ same_fields h h'.
Proof.
  intros E.
  assert (exists t, h !! self = Some (TableObj t)) as [t Et].
  { destruct fuel; [discriminate|]. simpl in E.
    apply bind_ok in E as (t & Et & _). apply get_table_ok in Et. eauto. }
  destruct (Table_resize_cases _ _ _ _ _ _ _ Et E)
    as [(-> & Hc & ->) | (n & _ & En)].
  - split.
    + eapply table_inv_no_columns; [apply lookup_insert_eq|done].
    + intros r. rewrite cols_at_insert. case_decide; [subst r|done].
      unfold cols_at. by rewrite Et.
  - apply Table_resize_post in En as (((_ & F & _) & _) & t' & Et' & Hs & A).
    split; [by eapply table_inv_intro|done].
Qed.

Lemma length_at_set_loc h self t v r :
  h !! self = Some (TableObj t) ->
  length_at (<[self := TableObj (set_loc t v)]> h) r = length_at h r.
Proof.
  intros Et. rewrite length_at_insert. case_decide; [subst r|done].
  unfold length_at. by rewrite Et.
Qed.

Lemma length_at_set_cols h self t c r :
  h !! self = Some (TableObj t) ->
  length_at (<[self := TableObj (set_cols t c)]> h) r = length_at h r.
Proof.
  intros Et. rewrite length_at_insert. case_decide; [subst r|done].
  unfold length_at. by rewrite Et.
Qed.

Lemma table_inv_assign_loc h self v h' :
  assign_loc h self v = Ok h' -> table_inv h self -> table_inv h' self.
Proof.
  unfold assign_loc. intros E. apply bind_ok in E as (t & Et & [= <-]).
  apply get_table_ok in Et. unfold table_inv.
  rewrite Et, lookup_insert_eq. simpl.
  intros A. eapply Forall_impl; [exact A|].
  intros kv [? Hl]. by rewrite length_at_set_loc.
Qed.

Lemma init_inv fuel h sz col_dict ats self h' :
  Table_init fuel h sz col_dict ats = Ok (self, h') -> table_inv h' self.
Proof.
  unfold Table_init, alloc. intros E.
  apply bind_ok in E as (h1 & E1 & E). apply bind_ok in E as (h2 & E2 & [= <- <-]).
  eapply table_inv_assign_loc; [exact E2|].
  set (self := fresh (dom h)) in *.
  assert (forall s, assign_size (<[self := TableObj (Struct_init col_dict ats)]> h)
                      self s = Ok h1 ->
                    cols (Struct_init col_dict ats) = nil -> table_inv h1 self) as Hnone.
  { intros s Es Hc.
    rewrite (assign_size_ok _ self (Struct_init col_dict ats)) in Es
      by apply lookup_insert_eq.
    injection Es as <-.
    eapply table_inv_no_columns; [apply lookup_insert_eq|done]. }
  destruct col_dict as [d|]; [|by eapply Hnone].
  destruct (0 <? length d)%nat eqn:Hd.
  - by apply Table_resize_inv in E1 as [? _].
  - eapply Hnone; [exact E1|]. destruct d; [done|]. simpl in Hd. discriminate.
Qed.

(** **** [add_field] *)

Lemma len_insert_ne h self o r : self <> r -> len (<[self := o]> h) r = len h r.
Proof. intros Hne. unfold len. by rewrite lookup_insert_ne. Qed.

Lemma len_set_cols h self t c r :
  h !! self = Some (TableObj t) ->
  len (<[self := TableObj (set_cols t c)]> h) r = len h r.
Proof.
  intros Et. unfold len. rewrite lookup_insert. case_decide; [subst r|done].
  by rewrite Et.
Qed.

Lemma elem_of_dict_set {V} (d : list (string * V)) k v kv :
  kv ∈ dict_set d k v -> kv = (k, v) \/ kv ∈ d.
Proof.
  induction d as [|[k' v'] d IH]; simpl.
  - intros ?%list_elem_of_singleton. by left.
  - case_decide.
    + intros [->|?]%elem_of_cons; [by left|]. right. by right.
    + intros [->|?]%elem_of_cons; [right; by left|].
      destruct IH as [?|?]; [done|by left|]. right. by right.
Qed.

Lemma dict_get_set {V} (d : list (string * V)) k v k' :
  dict_get (dict_set d k v) k' = if decide (k = k') then Some v else dict_get d k'.
Proof.
  induction d as [|[k0 v0] d IH]; simpl.
  - by case_decide.
  - destruct (decide (k0 = k)) as [->|Hne]; simpl.
    + by case_decide.
    + rewrite IH. destruct (decide (k0 = k')) as [->|?]; [|done].
      by rewrite decide_False.
Qed.

Lemma dict_get_elem {V} (d : list (string * V)) k v :
  dict_get d k = Some v -> (k, v) ∈ d.
Proof.
  induction d as [|[k0 v0] d IH]; simpl; [discriminate|].
  case_decide; [intros [= ->]; subst; by left|]. intros ?. right. auto.
Qed.

Lemma dict_set_same {V} (d : list (string * V)) k v :
  dict_get d k = Some v -> dict_set d k v = d.
Proof.
  induction d as [|[k0 v0] d IH]; simpl; [discriminate|].
  case_decide; [intros [= ->]; by subst|]. intros ?. f_equal. auto.
Qed.

(** What a call of [add_field] that returns has done. *)
Lemma add_field_cases fuel h self t name obj uos h' :
  h !! self = Some (TableObj t) ->
  Table_add_field fuel h self name obj uos = Ok h' ->
  let t1 := set_cols t (dict_set (cols t) name obj) in
  let h1 := <[self := TableObj t1]> h in
  exists l, len h1 obj = Ok l /\
    match size t with
    | None => h' = <[self := TableObj (set_size t1 (Some l))]> h1
    | Some s =>
        (s = l /\ h' = h1) \/
        (s <> l /\
         Table_resize fuel h1 self (Some (if uos then l else s)) false = Ok h')
    end.
Proof.
  intros Et E t1 h1. unfold Table_add_field in E.
  destruct (h !! obj) as [o|] eqn:Eo; [|discriminate].
  destruct (negb (has_len o)); [discriminate|].
  unfold Struct_add_field in E. rewrite (proj2 (get_table_ok _ _ _) Et) in E.
  simpl in E. fold t1 h1 in E.
  assert (E1 : h1 !! self = Some (TableObj t1)) by apply lookup_insert_eq.
  rewrite (proj2 (get_table_ok _ _ _) E1) in E. simpl in E.
  destruct (size t) as [s|] eqn:Hs; simpl in E.
  - rewrite (proj2 (get_table_ok _ _ _) E1) in E. simpl in E.
    apply bind_ok in E as (l & El & E). exists l. split; [done|].
    rewrite Hs in E. case_decide as Hl.
    + right. split; [congruence|]. by destruct uos.
    + left. split; [congruence|]. by injection E as <-.
  - apply bind_ok in E as (h2 & E2 & E). apply bind_ok in E2 as (l & El & E2).
    rewrite (assign_size_ok _ _ t1) in E2 by done. injection E2 as <-.
    exists l. split; [done|].
    set (t2 := set_size t1 (Some l)) in *.
    assert (E2 : (<[self := TableObj t2]> h1) !! self = Some (TableObj t2))
      by apply lookup_insert_eq.
    rewrite (proj2 (get_table_ok _ _ _) E2) in E. simpl in E.
    apply bind_ok in E as (l2 & El2 & E).
    assert (l2 = l) as ->.
    { destruct (decide (self = obj)) as [<-|Hne].
      - unfold len in El2. rewrite E2 in El2. unfold len_obj in El2. simpl in El2.
        destruct (l <? 0); congruence.
      - rewrite len_insert_ne in El2 by done. congruence. }
    rewrite decide_False in E by (intros Hx; by apply Hx).
    by injection E as <-.
Qed.

Lemma add_field_inv fuel h self name obj uos h' :
  table_inv h self ->
  Table_add_field fuel h self name obj uos = Ok h' ->
  table_inv h' self.
Proof.
  intros Hinv E. unfold table_inv in Hinv.
  destruct (h !! self) as [[| | | |t]|] eqn:Et; try done.
  destruct (add_field_cases _ _ _ _ _ _ _ _ Et E) as (l & El & Hcase).
  set (t1 := set_cols t (dict_set (cols t) name obj)) in *.
  set (h1 := <[self := TableObj t1]> h) in *.
  apply len_length in El as [El _].
  destruct (size t) as [s|] eqn:Hs.
  - destruct Hcase as [[-> ->] | [_ Er]];
      [|by apply Table_resize_inv in Er as [? _]].
    eapply (table_inv_intro _ _ t1 l); [apply lookup_insert_eq|done|].
    apply Forall_forall. intros kv [->|Hkv]%elem_of_dict_set; [done|].
    unfold h1, t1. rewrite length_at_set_cols by done.
    rewrite Forall_forall in Hinv. by apply Hinv.
  - subst h'.
    eapply (table_inv_intro _ _ (set_size t1 (Some l)) l);
      [apply lookup_insert_eq|done|].
    apply Forall_forall. intros kv [->|Hkv]%elem_of_dict_set.
    + simpl. rewrite length_at_insert. by case_decide.
    + rewrite Forall_forall in Hinv. apply Hinv in Hkv as [[? ?] _]. done.
Qed.

(** **** When [resize] returns *)

Lemma resizable_eq h d r :
  resizable h d r =
  match h !! r with
  | None => False
  | Some o =>
      returns (len_obj o) /\
      match fields_of o with
      | None => True
      | Some cs =>
          match d with
          | O => False
          | S d' => Forall (fun kv : string * ref => resizable h d' kv.2) cs
          end
      end
  end.
Proof. by destruct d. Qed.

Lemma keeps_resizable_refl h : keeps_resizable h h.
Proof. by intros d r. Qed.
Lemma keeps_resizable_trans h1 h2 h3 :
  keeps_resizable h1 h2 -> keeps_resizable h2 h3 -> keeps_resizable h1 h3.
Proof. intros H1 H2 d r Hr. by apply H2, H1. Qed.

(** Replacing an object by one of the same class and fields that still has
    a length keeps every object resizable. *)
Lemma keeps_resizable_insert h c o o' :
  h !! c = Some o -> returns (len_obj o') -> fields_of o' = fields_of o ->
  keeps_resizable h (<[c := o']> h).
Proof.
  intros Eo Hl Hf d. induction d as [|d IH]; intros r;
    rewrite !resizable_eq, lookup_insert; case_decide; subst;
    rewrite ?Eo, ?Hf; try tauto.
  - destruct (fields_of o); [|tauto]. intros [_ Hc]. split; [done|].
    eapply Forall_impl; [exact Hc|]. intros kv. apply IH.
  - destruct (h !! r) as [o1|]; [|done].
    destruct (fields_of o1); [|done]. intros [? Hc]. split; [done|].
    eapply Forall_impl; [exact Hc|]. intros kv. apply IH.
Qed.

Lemma resizable_len h d r : resizable h d r -> returns (len h r).
Proof.
  rewrite resizable_eq. unfold len. destruct (h !! r); [|done]. by intros [? _].
Qed.

Lemma column_resize_returns o n :
  returns (len_obj o) -> fields_of o = None -> 0 <= n ->
  exists o', column_resize o n = Ok o' /\ returns (len_obj o') /\
             fields_of o' = None.
Proof.
  intros [l Hl] Hf Hn.
  assert (Hnn : (n <? 0) = false) by (apply Z.ltb_ge; lia).
  assert (Hok : forall z, 0 <= z -> returns (if z <? 0 then Raise ValueError else Ok z)).
  { intros z Hz. assert ((z <? 0) = false) as -> by (apply Z.ltb_ge; lia). by eexists. }
  unfold len_obj in *.
  destruct o as [v|a|a|dd|t]; simpl in *; try discriminate.
  - unfold resize_nda. destruct (shape a) as [|m rest]; [discriminate|].
    rewrite Hnn. eexists. split; [done|]. simpl. split; [|done]. apply Hok. lia.
  - unfold resize_nda. destruct (shape a) as [|m rest]; [discriminate|].
    rewrite Hnn. eexists. split; [done|]. simpl. split; [|done]. apply Hok. lia.
  - unfold resize_ak. rewrite Hnn.
    destruct dd; (eexists; split; [done|]; simpl; split; [|done]; apply Hok; lia).
Qed.

Section LoopReturns.
Variable rec : heap -> ref -> option Z -> result heap.
Variable n : Z.
Variable d : nat.
Hypothesis n_nonneg : 0 <= n.
Hypothesis rec_returns : forall h o t,
  h !! o = Some (TableObj t) -> resizable h d o ->
  exists h', rec h o (Some n) = Ok h' /\ keeps_resizable h h'.

Lemma obj_resize_returns h obj :
  resizable h d obj ->
  exists h', obj_resize rec h obj n = Ok h' /\ keeps_resizable h h'.
Proof.
  intros Hr. pose proof Hr as Hr'. rewrite resizable_eq in Hr'.
  unfold obj_resize. destruct (h !! obj) as [o|] eqn:Eo; [|done].
  destruct Hr' as [Hl Hf].
  destruct (fields_of o) as [cs|] eqn:Ef.
  - destruct o; try discriminate. by eapply rec_returns.
  - destruct (column_resize_returns o n Hl Ef n_nonneg) as (o' & E & Hl' & Ef').
    exists (<[obj := o']> h). split.
    + destruct o; try discriminate; by rewrite E.
    + eapply keeps_resizable_insert; [done..|congruence].
Qed.

Lemma resize_items_returns items : forall h,
  Forall (fun kv : string * ref => resizable h d kv.2) items ->
  exists h', resize_items rec items h (Some n) = Ok (h', Some n) /\
             keeps_resizable h h'.
Proof.
  induction items as [|[field obj] items IH]; intros h Hall.
  - exists h. split; [done|apply keeps_resizable_refl].
  - apply Forall_cons in Hall as [Hobj Hrest]. simpl in Hobj.
    destruct (resizable_len _ _ _ Hobj) as [l El]. simpl. rewrite El. simpl.
    case_decide.
    + destruct (obj_resize_returns h obj Hobj) as (h1 & E1 & K1).
      rewrite E1. simpl.
      destruct (IH h1) as (h' & E & K).
      { eapply Forall_impl; [exact Hrest|]. intros kv. apply K1. }
      exists h'. split; [done|by eapply keeps_resizable_trans].
    + by apply IH.
Qed.
End LoopReturns.

Lemma columns_resizable_table h d o t :
  h !! o = Some (TableObj t) -> resizable h (S d) o -> columns_resizable h d o.
Proof.
  intros Et. rewrite resizable_eq. unfold columns_resizable. rewrite Et. simpl.
  by intros [_ ?].
Qed.

Lemma Table_resize_S fuel h self ns dw t :
  h !! self = Some (TableObj t) ->
  Table_resize (S fuel) h self ns dw =
    resize_items (fun h o n => Table_resize fuel h o n false) (cols t) h ns
      ≫= fun '(h', ns') => assign_size h' self ns'.
Proof.
  intros Et. cbn [Table_resize]. by rewrite (proj2 (get_table_ok _ _ _) Et).
Qed.

Lemma Table_resize_returns_step fuel d :
  (forall h o t n, 0 <= n -> h !! o = Some (TableObj t) -> resizable h d o ->
     exists h', Table_resize fuel h o (Some n) false = Ok h' /\
                keeps_resizable h h') ->
  forall h self n dw, 0 <= n -> columns_resizable h d self ->
    exists h', Table_resize (S fuel) h self (Some n) dw = Ok h' /\
               keeps_resizable h h'.
Proof.
  intros Hrec h self n dw Hn Hc. unfold columns_resizable in Hc.
  destruct (h !! self) as [[| | | |t]|] eqn:Et; try done.
  destruct (resize_items_returns (fun h o n => Table_resize fuel h o n false)
              n d Hn) with (items := cols t) (h := h) as (h1 & E1 & K1); [|done|].
  { intros h0 o t0 Eo Ho. by eapply Hrec. }
  pose proof E1 as P1. apply resize_items_post in P1 as (_ & (_ & F & _) & _);
    [|intros ??? Hr; by apply Table_resize_post in Hr as [? _]].
  specialize (F self). unfold cols_at in F. rewrite Et in F.
  destruct (h1 !! self) as [[| | | |t1]|] eqn:Et1; try discriminate.
  eexists. split.
  - rewrite (Table_resize_S _ _ _ _ _ t Et), E1. simpl. by apply assign_size_ok.
  - eapply keeps_resizable_trans; [exact K1|].
    eapply keeps_resizable_insert; [done| |done].
    unfold len_obj. simpl.
    assert ((n <? 0) = false) as -> by (apply Z.ltb_ge; lia). by eexists.
Qed.

Lemma Table_resize_returns d : forall h self n dw,
  0 <= n -> columns_resizable h d self ->
  exists h', Table_resize (S d) h self (Some n) dw = Ok h' /\
             keeps_resizable h h'.
Proof.
  induction d as [|d IH]; apply Table_resize_returns_step.
  - intros h o t n _ Eo. rewrite resizable_eq, Eo. simpl. tauto.
  - intros h o t n Hn Eo Ho. apply IH; [done|]. by eapply columns_resizable_table.
Qed.

Lemma Table_resize_None_returns d h self dw :
  columns_resizable h d self ->
  exists h', Table_resize (S d) h self None dw = Ok h'.
Proof.
  intros Hc. pose proof Hc as Hc'. unfold columns_resizable in Hc'.
  destruct (h !! self) as [[| | | |t]|] eqn:Et; try done.
  destruct (cols t) as [|[field obj] rest] eqn:Ecols.
  - eexists. by apply (Table_resize_empty _ _ _ t).
  - apply Forall_cons in Hc' as [Hobj _]. simpl in Hobj.
    destruct (resizable_len _ _ _ Hobj) as [l El].
    rewrite (Table_resize_none _ _ _ t field obj rest l dw) by done.
    destruct (Table_resize_returns d h self l dw) as (h' & E & _); [|done|eauto].
    by apply len_length in El as [_ ?].
Qed.


Lemma settled_table_inv n h c t :
  h !! c = Some (TableObj t) -> settled n h c ->
  table_inv h c /\ size_at h c = Some n.
Proof.
  intros Et [Hl Hc]. unfold length_at in Hl. rewrite Et in Hl. simpl in Hl.
  split.
  - eapply table_inv_intro; [done..|]. apply Hc. unfold cols_at. by rewrite Et.
  - unfold size_at. by rewrite Et.
Qed.

Lemma Table_resize_nested fuel h self ns dw h' n c t :
  Table_resize fuel h self ns dw = Ok h' ->
  size_at h' self = Some n ->
  (exists cs name, cols_at h' self = Some cs /\ (name, c) ∈ cs) ->
  length_at h c <> Some n ->
  h' !! c = Some (TableObj t) ->
  table_inv h' c /\ size_at h' c = Some n.
Proof.
  intros E Hs (cs & name & Hcs & Hin) Hne Ec.
  assert (exists t0, h !! self = Some (TableObj t0)) as [t0 Et].
  { destruct fuel; [discriminate|]. simpl in E.
    apply bind_ok in E as (t0 & Et & _). apply get_table_ok in Et. eauto. }
  destruct (Table_resize_cases _ _ _ _ _ _ _ Et E)
    as [(-> & Hc & ->) | (m & _ & En)].
  - unfold size_at in Hs. rewrite lookup_insert_eq in Hs. discriminate.
  - apply Table_resize_post in En as (((_ & _ & N) & _) & t' & Et' & Hs' & A).
    unfold size_at in Hs. rewrite Et' in Hs. assert (m = n) as -> by congruence.
    unfold cols_at in Hcs. rewrite Et' in Hcs. injection Hcs as <-.
    rewrite Forall_forall in A. specialize (A _ Hin). simpl in A.
    eapply settled_table_inv; [done|]. by apply N.
Qed.

Lemma Table_resize_any_returns d h self ns dw :
  columns_resizable h d self -> (forall n, ns = Some n -> 0 <= n) ->
  returns (Table_resize (S d) h self ns dw).
Proof.
  intros Hc Hn. destruct ns as [n|].
  - destruct (Table_resize_returns d h self n dw) as (h' & E & _); [auto|done|].
    by exists h'.
  - by apply Table_resize_None_returns.
Qed.

Lemma keeps_resizable_alloc h self o :
  h !! self = None -> keeps_resizable h (<[self := o]> h).
Proof.
  intros Hf d. induction d as [|d IH]; intros r; rewrite !resizable_eq;
    (destruct (decide (self = r)) as [<-|Hne];
       [by rewrite Hf|rewrite lookup_insert_ne by done]);
    destruct (h !! r) as [o1|]; try done;
    destruct (fields_of o1); try done.
  intros [? Hc]. split; [done|]. eapply Forall_impl; [exact Hc|].
  intros kv. apply IH.
Qed.

Lemma init_returns d h sz col_dict ats :
  Forall (fun kv : string * ref => resizable h d kv.2)
    (cols (Struct_init col_dict ats)) ->
  (forall n, sz = Some n -> 0 <= n) ->
  returns (Table_init (S d) h sz col_dict ats).
Proof.
  intros Hall Hsz. unfold Table_init, alloc.
  set (self := fresh (dom h)).
  set (t0 := Struct_init col_dict ats) in *.
  set (h0 := <[self := TableObj t0]> h).
  assert (Hf : h !! self = None) by apply not_elem_of_dom, is_fresh.
  assert (E0 : h0 !! self = Some (TableObj t0)) by apply lookup_insert_eq.
  assert (Hloc : forall h1, (exists t1, h1 !! self = Some (TableObj t1)) ->
            returns (assign_loc h1 self 0 ≫= fun h2 => Ok (self, h2))).
  { intros h1 [t1 E1]. rewrite (assign_loc_ok _ _ t1) by done. by eexists. }
  assert (Hnone : returns
            (assign_size h0 self
               (match sz with Some s => Some s | None => None end)
             ≫= fun h1 => assign_loc h1 self 0 ≫= fun h2 => Ok (self, h2))).
  { rewrite (assign_size_ok _ _ t0) by done. simpl. apply Hloc.
    eexists. apply lookup_insert_eq. }
  destruct col_dict as [dct|]; [|exact Hnone].
  destruct (0 <? length dct)%nat; [|exact Hnone].
  destruct (Table_resize_any_returns d h0 self sz (bool_decide (sz = None)))
    as [h1 E1]; [|done|].
  { unfold columns_resizable. rewrite E0.
    eapply Forall_impl; [exact Hall|]. intros kv.
    by apply keeps_resizable_alloc. }
  cbn zeta. rewrite E1. simpl. apply Hloc.
  apply Table_resize_inv in E1 as [_ F]. specialize (F self).
  unfold cols_at in F. rewrite E0 in F.
  destruct (h1 !! self) as [[| | | |t1]|]; try discriminate. eauto.
Qed.

(** C1, as the code has it.  Right after construction, and after every call
    of [resize] that returns, every column of the table has the length
    [size]; a column that is itself a table and whose length differed is
    resized with its own columns.  The constructor and [resize] return
    whenever [len] succeeds on the columns, nested to a finite depth, and
    the requested size is not negative.  [add_field] and [add_column] keep
    the property: when it held before the call it holds after it. *)
Theorem table_size_invariant (fuel : nat) (h : heap) (self : ref) :
  (forall sz col_dict ats self' h',
     Table_init fuel h sz col_dict ats = Ok (self', h') -> table_inv h' self') /\
  (forall d sz col_dict ats,
     fuel = S d ->
     Forall (fun kv : string * ref => resizable h d kv.2)
       (cols (Struct_init col_dict ats)) ->
     (forall n, sz = Some n -> 0 <= n) ->
     returns (Table_init fuel h sz col_dict ats)) /\
  (forall ns dw h',
     Table_resize fuel h self ns dw = Ok h' ->
     table_inv h' self /\
     forall n name c cs t,
       size_at h' self = Some n -> cols_at h' self = Some cs ->
       (name, c) ∈ cs -> h' !! c = Some (TableObj t) ->
       length_at h c <> Some n ->
       table_inv h' c /\ size_at h' c = Some n) /\
  (forall d ns dw,
     fuel = S d -> columns_resizable h d self ->
     (forall n, ns = Some n -> 0 <= n) ->
     returns (Table_resize fuel h self ns dw)) /\
  (forall name obj use_obj_size h',
     table_inv h self ->
     Table_add_field fuel h self name obj use_obj_size = Ok h' ->
     table_inv h' self) /\
  (forall name obj use_obj_size h',
     table_inv h self ->
     Table_add_column fuel h self name obj use_obj_size = Ok h' ->
     table_inv h' self).
Proof.
  split; [intros; by eapply init_inv|].
  split; [intros d sz col_dict ats -> ??; by apply init_returns|].
  split.
  { intros ns dw h' E. split; [by apply Table_resize_inv in E as [? _]|].
    intros n name c cs t Hs Hcs Hin Ec Hne.
    eapply Table_resize_nested; eauto. }
  split; [intros d ns dw -> ??; by apply Table_resize_any_returns|].
  split; intros name obj uos h' Hinv E; by eapply add_field_inv.
Qed.

Lemma table_size_invariant_witness :
  exists h', Table_resize 1 store_ab 2%nat (Some 5) false = Ok h' /\
             table_inv h' 2%nat /\ length_at h' 0%nat = Some 5.
Proof.
  eexists. 
  assert (E : Table_resize 1 store_ab 2%nat (Some 5) false = Ok
    (<[2%nat := TableObj (mk_Table (Some 5) 0
                         (("a", 0%nat) :: ("b", 1%nat) :: nil) nil)]>
  (<[1%nat := array_of (10 :: 20 :: 30 :: 0 :: 0 :: nil)]>
  (<[0%nat := array_of (1 :: 2 :: 3 :: 0 :: 0 :: nil)]> ∅))))
    by (vm_compute; reflexivity).
  split; [exact E|]. split; [|reflexivity].
  exact (proj1 (proj1 (proj2 (proj2 (table_size_invariant 1 store_ab 2%nat)))
                  _ _ _ E)).
Defined.

(** [add_field] does not restore the property: a column that was resized
    through another table sharing it stays out of step when the added
    column already has the length [size]. *)
Lemma add_field_leaves_shared_column_out_of_step :
  exists t1 h,
    shared_column_run = Ok (t1, h) /\
    size_at h t1 = Some 3 /\
    getitem h t1 "a" = Ok 0%nat /\ length_at h 0%nat = Some 5 /\
    ~ table_inv h t1.
Proof.
  eexists _, _. split; [vm_compute; reflexivity|].
  split; [reflexivity|]. split; [reflexivity|]. split; [reflexivity|].
  intros Hinv. unfold table_inv in Hinv. vm_compute in Hinv.
  apply Forall_cons in Hinv as [[_ Hl] _]. discriminate Hl.
Qed.

(** **** [add_field] with differing lengths *)

Lemma getitem_ok h table name r :
  getitem h table name = Ok r <->
  exists cs, cols_at h table = Some cs /\ dict_get cs name = Some r.
Proof.
  unfold getitem, get_table, cols_at.
  destruct (h !! table) as [[| | | |t]|]; simpl;
    try (split; [discriminate | intros (cs & ? & _); discriminate]).
  destruct (dict_get (cols t) name) as [r'|] eqn:E; split.
  - intros [= ->]. eauto.
  - intros (cs & [= <-] & Hr). congruence.
  - discriminate.
  - intros (cs & [= <-] & Hr). congruence.
Qed.

Lemma add_field_mismatch fuel h self t name obj uos s l h' :
  h !! self = Some (TableObj t) -> size t = Some s -> len h obj = Ok l ->
  s <> l ->
  Table_add_field fuel h self name obj uos = Ok h' ->
  let n := if uos then l else s in
  exists t', h' !! self = Some (TableObj t') /\ size t' = Some n /\
    cols t' = dict_set (cols t) name obj /\
    Forall (fun kv : string * ref => length_at h' kv.2 = Some n) (cols t').
Proof.
  intros Et Hs El Hne E n.
  destruct (add_field_cases _ _ _ _ _ _ _ _ Et E) as (l' & El' & Hcase).
  rewrite len_set_cols in El' by done. assert (l' = l) as -> by congruence.
  rewrite Hs in Hcase. destruct Hcase as [[? _]|[_ Er]]; [done|].
  apply Table_resize_post in Er as (((_ & F & _) & _) & t' & Et' & Hs' & A).
  exists t'. split; [done|]. split; [done|]. split; [|done].
  specialize (F self). unfold cols_at in F.
  rewrite Et', lookup_insert_eq in F. simpl in F. congruence.
Qed.

#[local] Arguments Table_resize : simpl never.

Lemma add_field_returns d h self t name obj uos h1 :
  h !! self = Some (TableObj t) ->
  (forall s, size t = Some s -> 0 <= s) ->
  Struct_add_field h self name obj = Ok h1 ->
  columns_resizable h1 d self ->
  exists h', Table_add_field (S d) h self name obj uos = Ok h' /\
             keeps_resizable h1 h'.
Proof.
  intros Et Hs E1 Hc. unfold Table_add_field.
  pose proof E1 as E1'. unfold Struct_add_field in E1'.
  rewrite (proj2 (get_table_ok _ _ _) Et) in E1'. simpl in E1'.
  injection E1' as <-.
  set (t1 := set_cols t (dict_set (cols t) name obj)) in *.
  set (h1 := <[self := TableObj t1]> h) in *.
  assert (Et1 : h1 !! self = Some (TableObj t1)) by apply lookup_insert_eq.
  assert (Hobj : resizable h1 d obj).
  { unfold columns_resizable in Hc. rewrite Et1 in Hc.
    rewrite Forall_forall in Hc.
    apply (Hc (name, obj)). apply dict_get_elem. simpl.
    by rewrite dict_get_set, decide_True. }
  destruct (resizable_len _ _ _ Hobj) as [l El].
  assert (exists o, h !! obj = Some o /\ has_len o = true) as (o & Eo & Ho).
  { pose proof El as El'. unfold h1, t1 in El'.
    rewrite len_set_cols in El' by done. unfold len in El'.
    destruct (h !! obj) as [o|]; [|discriminate].
    exists o. split; [done|]. by destruct o. }
  rewrite Eo, Ho, E1. simpl. rewrite (proj2 (get_table_ok _ _ _) Et1). simpl.
  destruct (size t) as [s|] eqn:Hsz; simpl.
  - rewrite (proj2 (get_table_ok _ _ _) Et1). simpl. rewrite El. simpl.
    rewrite Hsz. case_decide.
    + destruct uos; (apply Table_resize_returns; [|done]);
        [by apply len_length in El as [_ ?]|auto].
    + eexists. split; [done|apply keeps_resizable_refl].
  - rewrite El. simpl. rewrite (assign_size_ok _ _ t1) by done. simpl.
    set (t2 := set_size t1 (Some l)).
    assert (Et2 : (<[self := TableObj t2]> h1) !! self = Some (TableObj t2))
      by apply lookup_insert_eq.
    rewrite (proj2 (get_table_ok _ _ _) Et2). simpl.
    assert (len (<[self := TableObj t2]> h1) obj = Ok l) as ->.
    { destruct (decide (self = obj)) as [<-|Hne].
      - unfold len in El. rewrite Et1 in El. unfold len_obj in El. simpl in El.
        rewrite Hsz in El. discriminate.
      - by rewrite len_insert_ne. }
    simpl. rewrite decide_False by (intros Hx; by apply Hx).
    eexists. split; [done|].
    eapply keeps_resizable_insert; [done| |done].
    unfold len_obj. simpl. apply len_length in El as [_ ?].
    assert ((l <? 0) = false) as -> by (apply Z.ltb_ge; lia). by eexists.
Qed.

(** C3.  [add_field(name, obj)] on a table of size [s] with an object of
    another length [l]: without [use_obj_size], afterwards the object has
    length [s] and the size is still [s]; with [use_obj_size], afterwards
    the size is [l] and every column of the table has length [l].  The call
    returns when, with the field in place, [len] succeeds on all columns
    (nested to a finite depth) and [s] is not negative. *)
Theorem add_field_reconciles_lengths (fuel : nat) (h : heap) (self : ref)
    (t : Table) (name : string) (obj : ref) (s l : Z) :
  h !! self = Some (TableObj t) -> size t = Some s -> len h obj = Ok l ->
  s <> l ->
  (forall h',
     Table_add_field fuel h self name obj false = Ok h' ->
     getitem h' self name = Ok obj /\
     length_at h' obj = Some s /\ size_at h' self = Some s) /\
  (forall h',
     Table_add_field fuel h self name obj true = Ok h' ->
     getitem h' self name = Ok obj /\
     size_at h' self = Some l /\
     forall name' c, getitem h' self name' = Ok c -> length_at h' c = Some l) /\
  (forall d h1 use_obj_size,
     fuel = S d -> 0 <= s ->
     Struct_add_field h self name obj = Ok h1 -> columns_resizable h1 d self ->
     returns (Table_add_field fuel h self name obj use_obj_size)).
Proof.
  intros Et Hs El Hne.
  assert (forall uos h', Table_add_field fuel h self name obj uos = Ok h' ->
    getitem h' self name = Ok obj /\
    size_at h' self = Some (if uos then l else s) /\
    forall name' c, getitem h' self name' = Ok c ->
      length_at h' c = Some (if uos then l else s)) as Hpost.
  { intros uos h' E.
    destruct (add_field_mismatch _ _ _ _ _ _ _ _ _ _ Et Hs El Hne E)
      as (t' & Et' & Hs' & Hc & A).
    assert (Hg : getitem h' self name = Ok obj).
    { apply getitem_ok. exists (cols t'). unfold cols_at. rewrite Et'.
      split; [done|]. by rewrite Hc, dict_get_set, decide_True. }
    split; [done|]. split; [unfold size_at; by rewrite Et'|].
    intros name' c [cs [Hcs Hd]]%getitem_ok.
    unfold cols_at in Hcs. rewrite Et' in Hcs. injection Hcs as <-.
    rewrite Forall_forall in A. by apply (A (name', c)), dict_get_elem. }
  split; [|split].
  - intros h' E. destruct (Hpost false h' E) as (Hg & Hsz & Hall).
    split; [done|]. split; [by eapply Hall|done].
  - intros h' E. by apply (Hpost true h' E).
  - intros d h1 uos -> Hs0 E1 Hc.
    destruct (add_field_returns d h self t name obj uos h1) as (h' & E & _);
      try done; [|by exists h'].
    intros s' Hs'. congruence.
Qed.

Lemma add_field_reconciles_lengths_witness :
  let t := mk_Table (Some 3) 0 (("a", 0%nat) :: ("b", 1%nat) :: nil) nil in
  store_abc !! 2%nat = Some (TableObj t) /\ size t = Some 3 /\
  len store_abc 3%nat = Ok 5 /\ 3 <> 5 /\
  exists h', Table_add_field 1 store_abc 2%nat "c" 3%nat false = Ok h' /\
    getitem h' 2%nat "c" = Ok 3%nat /\
    length_at h' 3%nat = Some 3 /\ size_at h' 2%nat = Some 3.
Proof.
  intros t.
  assert (Et : store_abc !! 2%nat = Some (TableObj t)) by reflexivity.
  assert (Hs : size t = Some 3) by reflexivity.
  assert (El : len store_abc 3%nat = Ok 5) by reflexivity.
  assert (Hne : 3 <> 5) by lia.
  split; [exact Et|]. split; [exact Hs|]. split; [exact El|]. split; [exact Hne|].
  assert (E : Table_add_field 1 store_abc 2%nat "c" 3%nat false = Ok
    (<[2%nat := TableObj (mk_Table (Some 3) 0
               (("a", 0%nat) :: ("b", 1%nat) :: ("c", 3%nat) :: nil) nil)]>
     (<[3%nat := array_of (1 :: 2 :: 3 :: nil)]> store_ab)))
    by (vm_compute; reflexivity).
  eexists. split; [exact E|].
  exact (proj1 (add_field_reconciles_lengths 1 store_abc 2%nat t "c" 3%nat 3 5
                  Et Hs El Hne) _ E).
Defined.

(** **** [resize] on columns that agree *)

Lemma resize_items_agreeing rec items : forall h l,
  Forall (fun kv : string * ref => len h kv.2 = Ok l) items ->
  resize_items rec items h (Some l) = Ok (h, Some l).
Proof.
  induction items as [|[field obj] items IH]; intros h l Hall; [done|].
  apply Forall_cons in Hall as [Hobj Hrest]. simpl in *. rewrite Hobj. simpl.
  rewrite decide_False by (intros Hx; by apply Hx). by apply IH.
Qed.

(** C6, as the code has it.  When [len] gives the same [l] on every column,
    [resize()] changes no column and assigns [l] to [size]: with at least
    one column and [size] already [l], the store is unchanged.  Without any
    column it assigns [None] to [size], so the store is unchanged only if
    the size was unset. *)
Theorem resize_without_argument (fuel : nat) (h : heap) (self : ref)
    (t : Table) (dw : bool) (l : Z) :
  h !! self = Some (TableObj t) ->
  Forall (fun kv : string * ref => len h kv.2 = Ok l) (cols t) ->
  (cols t <> nil ->
     Table_resize (S fuel) h self None dw
       = Ok (<[self := TableObj (set_size t (Some l))]> h) /\
     (size t = Some l -> Table_resize (S fuel) h self None dw = Ok h)) /\
  (cols t = nil ->
     Table_resize (S fuel) h self None dw
       = Ok (<[self := TableObj (set_size t None)]> h) /\
     (size t = None -> Table_resize (S fuel) h self None dw = Ok h)).
Proof.
  intros Et Hall.
  assert (Hid : forall s, size t = s ->
            <[self := TableObj (set_size t s)]> h = h).
  { intros s <-. apply insert_id. rewrite Et. by destruct t. }
  split.
  - intros Hne. destruct (cols t) as [|[field obj] rest] eqn:Hc; [done|].
    assert (El : len h obj = Ok l) by (by apply Forall_cons in Hall as [? _]).
    assert (Table_resize (S fuel) h self None dw
            = Ok (<[self := TableObj (set_size t (Some l))]> h)) as E.
    { rewrite (Table_resize_none _ _ _ t field obj rest l dw) by done.
      rewrite (Table_resize_S _ _ _ _ _ t Et), Hc.
      rewrite resize_items_agreeing by done. simpl. by apply assign_size_ok. }
    split; [done|]. intros Hs. by rewrite E, Hid.
  - intros Hc. rewrite (Table_resize_empty _ _ _ t) by done.
    split; [done|]. intros Hs. by rewrite Hid.
Qed.

Lemma resize_without_argument_witness :
  let t := mk_Table (Some 3) 0 (("a", 0%nat) :: ("b", 1%nat) :: nil) nil in
  store_ab !! 2%nat = Some (TableObj t) /\
  Forall (fun kv : string * ref => len store_ab kv.2 = Ok 3) (cols t) /\
  Table_resize 1 store_ab 2%nat None false = Ok store_ab.
Proof.
  intros t.
  assert (Et : store_ab !! 2%nat = Some (TableObj t)) by reflexivity.
  assert (Hall : Forall (fun kv : string * ref => len store_ab kv.2 = Ok 3)
                   (cols t)) by (repeat constructor).
  split; [exact Et|]. split; [exact Hall|].
  refine (proj2 (proj1 (resize_without_argument 0 store_ab 2%nat t false 3
                          Et Hall) _) eq_refl).
  discriminate.
Defined.

(** [Table(size=10).resize()] leaves a table of size [None]. *)
Lemma resize_unsets_size_of_empty_table :
  exists self h h',
    Table_init 1 ∅ (Some 10) None None = Ok (self, h) /\
    Table_resize 1 h self None false = Ok h' /\
    size_at h self = Some 10 /\ size_at h' self = None.
Proof.
  eexists _, _, _. split; [vm_compute; reflexivity|].
  split; [vm_compute; reflexivity|]. split; reflexivity.
Qed.

(** **** [join] *)

Lemma add_field_table fuel h self name obj uos h' :
  Table_add_field fuel h self name obj uos = Ok h' ->
  exists t, h !! self = Some (TableObj t).
Proof.
  unfold Table_add_field. destruct (h !! obj); [|discriminate].
  destruct (negb _); [discriminate|]. intros E.
  apply bind_ok in E as (h1 & E & _). unfold Struct_add_field in E.
  apply bind_ok in E as (t & Et & _). apply get_table_ok in Et. eauto.
Qed.

Lemma add_field_fields fuel h self t name obj uos h' :
  h !! self = Some (TableObj t) ->
  Table_add_field fuel h self name obj uos = Ok h' ->
  cols_at h' self = Some (dict_set (cols t) name obj) /\
  forall r, r <> self -> cols_at h' r = cols_at h r.
Proof.
  intros Et E.
  destruct (add_field_cases _ _ _ _ _ _ _ _ Et E) as (l & _ & Hcase).
  set (t1 := set_cols t (dict_set (cols t) name obj)) in *.
  set (h1 := <[self := TableObj t1]> h) in *.
  assert (H1 : cols_at h1 self = Some (dict_set (cols t) name obj) /\
               forall r, r <> self -> cols_at h1 r = cols_at h r).
  { unfold h1. split; [by rewrite cols_at_insert, decide_True|].
    intros r Hr. by rewrite cols_at_insert, decide_False. }
  destruct (size t) as [s|].
  - destruct Hcase as [[_ ->]|[_ Er]]; [done|].
    apply Table_resize_post in Er as (((_ & F & _) & _) & _).
    destruct H1 as [H1 H1']. split; [by rewrite F|].
    intros r Hr. rewrite F. by apply H1'.
  - subst h'. destruct H1 as [H1 H1']. split.
    + by rewrite cols_at_insert, decide_True.
    + intros r Hr. rewrite cols_at_insert, decide_False by done. by apply H1'.
Qed.

Lemma add_field_dom fuel h self name obj uos h' :
  Table_add_field fuel h self name obj uos = Ok h' -> dom h' = dom h.
Proof.
  intros E. destruct (add_field_table _ _ _ _ _ _ _ E) as [t Et].
  destruct (add_field_cases _ _ _ _ _ _ _ _ Et E) as (l & _ & Hcase).
  set (t1 := set_cols t (dict_set (cols t) name obj)) in *.
  set (h1 := <[self := TableObj t1]> h) in *.
  assert (D1 : dom h1 = dom h) by (apply dom_insert_lookup_L; eauto).
  destruct (size t) as [s|].
  - destruct Hcase as [[_ ->]|[_ Er]]; [done|].
    apply Table_resize_post in Er as ((( _ & _ & _ & D) & _) & _). congruence.
  - subst h'. rewrite <- D1. apply dom_insert_lookup_L.
    eexists. apply lookup_insert_eq.
Qed.

Lemma join_loop_dom fuel self other names : forall h h',
  join_loop fuel names h self other = Ok h' -> dom h' = dom h.
Proof.
  induction names as [|name rest IH]; intros h h' E; simpl in E.
  - by injection E as <-.
  - apply bind_ok in E as (obj & _ & E). apply bind_ok in E as (h1 & E1 & E).
    apply add_field_dom in E1. apply IH in E. congruence.
Qed.

Lemma join_loop_post fuel self other co names : forall h h',
  cols_at h other = Some co ->
  join_loop fuel names h self other = Ok h' ->
  cols_at h' other = Some co /\
  Forall (fun name => is_Some (dict_get co name)) names /\
  forall k r, dict_get co k = Some r ->
    k ∈ names \/ getitem h self k = Ok r -> getitem h' self k = Ok r.
Proof.
  induction names as [|name rest IH]; intros h h' Hco E; simpl in E.
  - injection E as <-. split; [done|]. split; [done|].
    intros k r _ [Hk|?]; [|done]. by apply elem_of_nil in Hk.
  - apply bind_ok in E as (obj & Eobj & E). apply bind_ok in E as (h1 & E1 & E).
    unfold Table_add_column in E1.
    destruct (add_field_table _ _ _ _ _ _ _ E1) as [t Et].
    destruct (add_field_fields _ _ _ _ _ _ _ _ Et E1) as [Hself Hother].
    apply getitem_ok in Eobj as (co' & Hco' & Hobj).
    assert (co' = co) as -> by congruence.
    assert (Hco1 : cols_at h1 other = Some co).
    { destruct (decide (other = self)) as [->|Hne].
      - rewrite Hself. unfold cols_at in Hco. rewrite Et in Hco.
        injection Hco as <-. by rewrite dict_set_same.
      - by rewrite Hother. }
    destruct (IH h1 h' Hco1 E) as (Hco2 & Hin & Hkeep). split; [done|].
    split; [constructor; eauto|].
    intros k r Hr Hk. apply (Hkeep k r Hr).
    destruct (decide (name = k)) as [<-|Hne].
    + right. apply getitem_ok. eexists. split; [exact Hself|].
      rewrite dict_get_set, decide_True by done. congruence.
    + destruct Hk as [[?|Hk]%elem_of_cons|Hk]; [congruence|by left|right].
      apply getitem_ok in Hk as (cs & Hcs & Hd). apply getitem_ok.
      eexists. split; [exact Hself|].
      unfold cols_at in Hcs. rewrite Et in Hcs. injection Hcs as <-.
      by rewrite dict_get_set, decide_False.
Qed.

Lemma getitem_obj_insert h table name r o' :
  getitem h table name = Ok r -> r <> table ->
  getitem_obj (<[r := o']> h) table name = Ok o'.
Proof.
  intros Hg Hne. unfold getitem_obj.
  assert (getitem (<[r := o']> h) table name = Ok r) as ->.
  { apply getitem_ok in Hg as (cs & Hcs & Hd). apply getitem_ok.
    exists cs. split; [|done]. by rewrite cols_at_insert, decide_False. }
  simpl. by rewrite lookup_insert_eq.
Qed.

Lemma columns_resizable_iff h d self :
  columns_resizable h d self <->
  exists cs, cols_at h self = Some cs /\
    Forall (fun kv : string * ref => resizable h d kv.2) cs.
Proof.
  unfold columns_resizable, cols_at.
  destruct (h !! self) as [[| | | |t]|];
    try (split; [done | intros (cs & ? & _); discriminate]).
  split; [eauto|]. by intros (cs & [= <-] & ?).
Qed.

Lemma resizable_flat_insert h self t t' c :
  h !! self = Some (TableObj t) ->
  resizable h 0 c -> resizable (<[self := TableObj t']> h) 0 c.
Proof.
  intros Et. rewrite !resizable_eq, lookup_insert. case_decide; [subst c|done].
  rewrite Et. simpl. tauto.
Qed.

Lemma add_field_size fuel h self t name obj h' :
  h !! self = Some (TableObj t) ->
  Table_add_field fuel h self name obj false = Ok h' ->
  exists s', size_at h' self = Some s' /\
    (forall s, size t = Some s -> s' = s) /\ (size t = None -> 0 <= s').
Proof.
  intros Et E.
  destruct (add_field_cases _ _ _ _ _ _ _ _ Et E) as (l & El & Hcase).
  destruct (size t) as [s|] eqn:Hs.
  - exists s. split; [|split; [by intros ? [= ->]|done]].
    destruct Hcase as [[_ ->]|[_ Er]].
    + unfold size_at. by rewrite lookup_insert_eq.
    + apply Table_resize_post in Er as (_ & t' & Et' & Hs' & _).
      unfold size_at. by rewrite Et'.
  - subst h'. exists l. split; [|split; [done|]].
    + unfold size_at. by rewrite lookup_insert_eq.
    + intros _. by apply len_length in El as [_ ?].
Qed.

Lemma join_loop_returns self other co names : forall h,
  columns_resizable h 0 self -> columns_resizable h 0 other ->
  cols_at h other = Some co ->
  (forall s, size_at h self = Some s -> 0 <= s) ->
  Forall (fun name => is_Some (dict_get co name)) names ->
  returns (join_loop 1 names h self other).
Proof.
  induction names as [|name rest IH]; intros h Hself Hother Hco Hsz Hnames.
  - by exists h.
  - apply Forall_cons in Hnames as [[obj Hobj] Hrest].
    assert (Hg : getitem h other name = Ok obj) by (apply getitem_ok; eauto).
    simpl. rewrite Hg. simpl. unfold Table_add_column.
    pose proof Hself as Hself'. unfold columns_resizable in Hself'.
    destruct (h !! self) as [[| | | |t]|] eqn:Et; try done.
    apply columns_resizable_iff in Hother as (co' & Hco' & Hall).
    assert (co' = co) as -> by congruence.
    rewrite Forall_forall in Hall, Hself'.
    set (t1 := set_cols t (dict_set (cols t) name obj)).
    set (h1 := <[self := TableObj t1]> h).
    assert (E1 : Struct_add_field h self name obj = Ok h1).
    { unfold Struct_add_field. by rewrite (proj2 (get_table_ok _ _ _) Et). }
    assert (Hc1 : columns_resizable h1 0 self).
    { unfold columns_resizable, h1. rewrite lookup_insert_eq. simpl.
      apply Forall_forall. intros kv [->|Hkv]%elem_of_dict_set;
        eapply resizable_flat_insert; try done.
      - by apply (Hall (name, obj)), dict_get_elem.
      - by apply Hself'. }
    destruct (add_field_returns 0 h self t name obj false h1)
      as (h' & E & K); try done.
    { intros s Hs. apply Hsz. unfold size_at. by rewrite Et. }
    rewrite E. simpl.
    destruct (add_field_fields _ _ _ _ _ _ _ _ Et E) as [Fself Fother].
    assert (Hco1 : cols_at h' other = Some co).
    { destruct (decide (other = self)) as [->|Hne].
      - rewrite Fself. unfold cols_at in Hco. rewrite Et in Hco.
        injection Hco as <-. by rewrite dict_set_same.
      - by rewrite Fother. }
    apply IH; try done.
    + apply columns_resizable_iff. eexists. split; [exact Fself|].
      apply columns_resizable_iff in Hc1 as (cs1 & Hcs1 & Hall1).
      unfold h1 in Hcs1. rewrite cols_at_insert, decide_True in Hcs1 by done.
      injection Hcs1 as <-. eapply Forall_impl; [exact Hall1|].
      intros kv. apply K.
    + apply columns_resizable_iff. eexists. split; [exact Hco1|].
      apply Forall_forall. intros kv Hkv. apply K.
      eapply resizable_flat_insert; [done|]. by apply Hall.
    + intros s Hs. destruct (add_field_size _ _ _ _ _ _ _ Et E)
        as (s' & Hs' & Hsome & Hnone).
      assert (s' = s) as -> by congruence.
      destruct (size t) as [s0|] eqn:Hs0; [|auto].
      rewrite (Hsome s0 eq_refl). apply Hsz. unfold size_at. by rewrite Et.
Qed.

(** C4.  After [self.join(other_table, cols)], for every joined name both
    tables hold the same reference, the one [other_table] held before, so
    that whatever is stored behind it is what both tables see; the field
    mapping of [other_table] is unchanged and no object has been allocated.
    The call returns when the columns of both tables are array-like with a
    length, the size of [self] is unset or not negative, and every joined
    name is a field of [other_table]. *)
Theorem join_shares_columns (fuel : nat) (h : heap) (self other_table : ref)
    (cols_arg : option (list string)) (do_warn : bool)
    (fields : list (string * ref)) :
  cols_at h other_table = Some fields ->
  (forall h',
     Table_join fuel h self other_table cols_arg do_warn = Ok h' ->
     cols_at h' other_table = Some fields /\
     dom h' = dom h /\
     forall name, name ∈ default (dict_keys fields) cols_arg ->
       exists column,
         getitem h other_table name = Ok column /\
         getitem h' other_table name = Ok column /\
         getitem h' self name = Ok column /\
         forall o', column <> self -> column <> other_table ->
           getitem_obj (<[column := o']> h') other_table name = Ok o' /\
           getitem_obj (<[column := o']> h') self name = Ok o') /\
  (fuel = 1%nat ->
   columns_resizable h 0 self -> columns_resizable h 0 other_table ->
   (forall s, size_at h self = Some s -> 0 <= s) ->
   Forall (fun name => is_Some (dict_get fields name))
     (default (dict_keys fields) cols_arg) ->
   returns (Table_join fuel h self other_table cols_arg do_warn)).
Proof.
  intros Hco.
  assert (Hnames : forall other,
            get_table h other_table = Ok other ->
            match cols_arg with
            | Some c => c
            | None => dict_keys (cols other)
            end = default (dict_keys fields) cols_arg).
  { intros other Eo%get_table_ok. unfold cols_at in Hco. rewrite Eo in Hco.
    injection Hco as <-. by destruct cols_arg. }
  split.
  - intros h' E. unfold Table_join in E.
    apply bind_ok in E as (other & Eo & E). apply bind_ok in E as (me & _ & E).
    rewrite (Hnames _ Eo) in E.
    destruct (join_loop_post _ _ _ _ _ _ _ Hco E) as (Hco' & Hall & Hkeep).
    split; [done|]. split; [by eapply join_loop_dom|]. intros name Hin.
    rewrite Forall_forall in Hall. destruct (Hall name Hin) as [column Hd].
    exists column.
    assert (G0 : getitem h other_table name = Ok column)
      by (apply getitem_ok; eauto).
    assert (G1 : getitem h' other_table name = Ok column)
      by (apply getitem_ok; eauto).
    assert (G2 : getitem h' self name = Ok column) by (apply Hkeep; auto).
    split; [done|]. split; [done|]. split; [done|].
    intros o' Hs Ho. split; by apply getitem_obj_insert.
  - intros -> Hself Hother Hsz Hall. unfold Table_join.
    pose proof Hother as Ho. unfold columns_resizable in Ho.
    destruct (h !! other_table) as [[| | | |other]|] eqn:Eo; try done.
    pose proof Hself as Hs. unfold columns_resizable in Hs.
    destruct (h !! self) as [[| | | |me]|] eqn:Es; try done.
    rewrite (proj2 (get_table_ok _ _ _) Eo). simpl.
    rewrite (proj2 (get_table_ok _ _ _) Es). simpl.
    rewrite (Hnames other) by (by apply get_table_ok).
    by eapply join_loop_returns.
Qed.


Lemma join_shares_columns_witness :
  let fields := ("a", 0%nat) :: ("b", 1%nat) :: nil in
  cols_at store_join 2%nat = Some fields /\
  exists h', Table_join 1 store_join 3%nat 2%nat None true = Ok h' /\
    cols_at h' 2%nat = Some fields /\ cols_at h' 3%nat = Some fields.
Proof.
  intros fields.
  assert (Hf : cols_at store_join 2%nat = Some fields) by reflexivity.
  split; [exact Hf|].
  assert (E : Table_join 1 store_join 3%nat 2%nat None true = Ok
    (<[3%nat := TableObj (mk_Table (Some 3) 0 fields nil)]> store_ab))
    by (vm_compute; reflexivity).
  eexists. split; [exact E|]. split; [|reflexivity].
  exact (proj1 (proj1 (join_shares_columns 1 store_join 3%nat 2%nat None true
                         fields Hf) _ E)).
Defined.

(** ** Further properties of the table operations *)

Lemma resize_changes_refl n h : resize_changes n h h.
Proof. split; [done|]. intros r. by left. Qed.

Lemma resize_changes_trans n h1 h2 h3 :
  resize_changes n h1 h2 -> resize_changes n h2 h3 -> resize_changes n h1 h3.
Proof.
  intros [T1 R1] [T2 R2]. split.
  - intros r. by rewrite T2, T1.
  - intros r. destruct (R1 r) as [E1|[N1 L1]], (R2 r) as [E2|[N2 L2]].
    + left. congruence.
    + right. unfold length_at in *. rewrite <- E1. done.
    + right. unfold length_at in *. rewrite E2. done.
    + done.
Qed.

Lemma frame_at_insert h r o r' :
  frame_at (<[r := o]> h) r' =
    if decide (r = r') then
      match o with TableObj t => Some (loc t, cols t, attrs t) | _ => None end
    else frame_at h r'.
Proof. unfold frame_at. rewrite lookup_insert. by case_decide. Qed.

Lemma set_size_id t : set_size t (size t) = t.
Proof. by destruct t. Qed.

Lemma resize_changes_assign_size n h self t :
  h !! self = Some (TableObj t) ->
  resize_changes n h (<[self := TableObj (set_size t (Some n))]> h).
Proof.
  intros Et. split.
  - intros r. rewrite frame_at_insert. case_decide; [subst r|done].
    unfold frame_at. by rewrite Et.
  - intros r. rewrite lookup_insert. case_decide; [subst r|by left].
    destruct (decide (size t = Some n)) as [Hs|Hs].
    + left. by rewrite Et, <- Hs, set_size_id.
    + right. unfold length_at. rewrite Et, lookup_insert_eq. done.
Qed.

Section LoopChanges.
Variable rec : heap -> ref -> option Z -> result heap.
Variable n : Z.
Hypothesis rec_changes :
  forall h o h', rec h o (Some n) = Ok h' -> resize_changes n h h'.

Lemma obj_resize_changes h obj l h' :
  length_at h obj = Some l -> l <> n ->
  obj_resize rec h obj n = Ok h' -> resize_changes n h h'.
Proof.
  intros Hl Hne. unfold obj_resize.
  destruct (h !! obj) as [o|] eqn:Eo; [|discriminate].
  assert (Hcol : (o' ← column_resize o n; Ok (<[obj := o']> h)) = Ok h' ->
                 resize_changes n h h').
  { intros E. apply bind_ok in E as (o' & E & [= <-]).
    apply column_resize_length in E as (Hl' & _ & Hnt & Hnt').
    split.
    - intros r. rewrite frame_at_insert. case_decide; [subst r|done].
      unfold frame_at. rewrite Eo. destruct o, o'; try done;
        exfalso; first [by eapply Hnt | by eapply Hnt'].
    - intros r. rewrite lookup_insert. case_decide; [subst r|by left].
      right. split; [congruence|].
      unfold length_at. by rewrite lookup_insert_eq. }
  destruct o; try exact Hcol. apply rec_changes.
Qed.

Lemma resize_items_changes items : forall h h' ns,
  resize_items rec items h (Some n) = Ok (h', ns) -> resize_changes n h h'.
Proof.
  induction items as [|[field obj] items IH]; intros h h' ns E; simpl in E.
  - injection E as <- <-. apply resize_changes_refl.
  - apply bind_ok in E as (l & El & E). apply len_length in El as [El _].
    case_decide as Hl.
    + apply bind_ok in E as (h1 & E1 & E).
      eapply resize_changes_trans; [by eapply obj_resize_changes|by eapply IH].
    + by eapply IH.
Qed.
End LoopChanges.

Lemma Table_resize_changes fuel : forall h self n dw h',
  Table_resize fuel h self (Some n) dw = Ok h' -> resize_changes n h h'.
Proof.
  induction fuel as [|fuel IH]; intros h self n dw h' E; [discriminate|].
  assert (exists t, h !! self = Some (TableObj t)) as [t Et].
  { cbn [Table_resize] in E. apply bind_ok in E as (t & Et & _).
    apply get_table_ok in Et. eauto. }
  rewrite (Table_resize_S _ _ _ _ _ t Et) in E.
  apply bind_ok in E as ([h1 ns] & E1 & E).
  pose proof E1 as P1. apply resize_items_post in P1 as (-> & _ & _);
    [|intros ??? Hr; by apply Table_resize_post in Hr as [? _]].
  apply resize_items_changes in E1; [|intros ???; apply IH].
  unfold assign_size in E. apply bind_ok in E as (t1 & Et1 & [= <-]).
  apply get_table_ok in Et1.
  eapply resize_changes_trans; [exact E1|by apply resize_changes_assign_size].
Qed.

Lemma len_of_length_at h r n :
  length_at h r = Some n -> 0 <= n -> len h r = Ok n.
Proof.
  unfold length_at, len, len_obj. destruct (h !! r) as [o|]; [|discriminate].
  simpl. intros -> Hn.
  by assert ((n <? 0) = false) as -> by (apply Z.ltb_ge; lia).
Qed.

Lemma getitem_elem h self name c :
  getitem h self name = Ok c ->
  exists cs, cols_at h self = Some cs /\ (name, c) ∈ cs.
Proof.
  intros (cs & Hcs & Hd)%getitem_ok. exists cs. split; [done|].
  by apply dict_get_elem.
Qed.

(** X1.  A call [resize(n)] that returns leaves the table with size [n],
    the same field mapping, and every column of length [n]. *)
Theorem resize_reaches_target (fuel : nat) (h : heap) (self : ref) (n : Z)
    (do_warn : bool) (h' : heap) :
  Table_resize fuel h self (Some n) do_warn = Ok h' ->
  size_at h' self = Some n /\
  cols_at h' self = cols_at h self /\
  forall name c, getitem h' self name = Ok c -> length_at h' c = Some n.
Proof.
  intros E.
  apply Table_resize_post in E as (((_ & F & _) & _) & t' & Et' & Hs & A).
  split; [unfold size_at; by rewrite Et'|]. split; [apply F|].
  intros name c (cs & Hcs & Hin)%getitem_elem.
  unfold cols_at in Hcs. rewrite Et' in Hcs. injection Hcs as <-.
  rewrite Forall_forall in A. by apply (A (name, c)).
Qed.

Lemma resize_reaches_target_witness :
  exists h', Table_resize 1 store_ab 2%nat (Some 2) true = Ok h' /\
    size_at h' 2%nat = Some 2 /\
    h' !! 0%nat = Some (array_of (1 :: 2 :: nil)).
Proof.
  assert (E : Table_resize 1 store_ab 2%nat (Some 2) true = Ok
    (<[2%nat := TableObj (mk_Table (Some 2) 0
                 (("a", 0%nat) :: ("b", 1%nat) :: nil) nil)]>
     (<[1%nat := array_of (10 :: 20 :: nil)]>
     (<[0%nat := array_of (1 :: 2 :: nil)]> ∅))))
    by (vm_compute; reflexivity).
  eexists. split; [exact E|]. split; [|reflexivity].
  exact (proj1 (resize_reaches_target 1 store_ab 2%nat 2 true _ E)).
Defined.

(** X2.  A call [resize(n)] that returns allocates nothing, keeps the
    cursor, the field mapping and the attributes of every table, leaves
    every object that already had the length [n] exactly as it was, and
    every object it did change has the length [n] afterwards. *)
Theorem resize_changes_lengths_only (fuel : nat) (h : heap) (self : ref)
    (n : Z) (do_warn : bool) (h' : heap) :
  Table_resize fuel h self (Some n) do_warn = Ok h' ->
  dom h' = dom h /\
  (forall r, frame_at h' r = frame_at h r) /\
  (forall r, length_at h r = Some n -> h' !! r = h !! r) /\
  (forall r, h' !! r <> h !! r -> length_at h' r = Some n).
Proof.
  intros E. pose proof E as E'.
  apply Table_resize_post in E' as (((_ & _ & _ & D) & _) & _).
  apply Table_resize_changes in E as [T R].
  split; [done|]. split; [done|]. split.
  - intros r Hr. by destruct (R r) as [?|[? _]].
  - intros r Hr. by destruct (R r) as [?|[_ ?]].
Qed.

Lemma resize_changes_lengths_only_witness :
  exists h', Table_resize 1 store_abc 2%nat (Some 5) false = Ok h' /\
    h' !! 3%nat = store_abc !! 3%nat /\ length_at h' 0%nat = Some 5.
Proof.
  assert (E : Table_resize 1 store_abc 2%nat (Some 5) false = Ok
    (<[2%nat := TableObj (mk_Table (Some 5) 0
                 (("a", 0%nat) :: ("b", 1%nat) :: nil) nil)]>
     (<[1%nat := array_of (10 :: 20 :: 30 :: 0 :: 0 :: nil)]>
     (<[0%nat := array_of (1 :: 2 :: 3 :: 0 :: 0 :: nil)]> store_abc))))
    by (vm_compute; reflexivity).
  eexists. split; [exact E|]. split; [|reflexivity].
  exact (proj1 (proj2 (proj2
    (resize_changes_lengths_only 1 store_abc 2%nat 5 false _ E))) 3%nat eq_refl).
Defined.

(** X3.  Without a target, [resize()] on a table with columns is
    [resize(len(first column))]: when it returns, the size is the length of
    the first column and that column is untouched. *)
Theorem resize_default_is_first_column (fuel : nat) (h : heap) (self : ref)
    (t : Table) (field : string) (obj : ref) (rest : list (string * ref))
    (l : Z) (do_warn : bool) :
  h !! self = Some (TableObj t) -> cols t = (field, obj) :: rest ->
  len h obj = Ok l ->
  Table_resize fuel h self None do_warn
    = Table_resize fuel h self (Some l) do_warn /\
  forall h', Table_resize fuel h self None do_warn = Ok h' ->
    size_at h' self = Some l /\ h' !! obj = h !! obj.
Proof.
  intros Et Hc El.
  assert (Table_resize fuel h self None do_warn
          = Table_resize fuel h self (Some l) do_warn) as Heq
    by (by eapply Table_resize_none).
  split; [done|]. intros h' E. rewrite Heq in E. pose proof E as E'.
  apply Table_resize_post in E' as (_ & t' & Et' & Hs & _).
  apply Table_resize_changes in E as [_ R].
  split; [unfold size_at; by rewrite Et'|].
  apply len_length in El as [El _].
  by destruct (R obj) as [?|[? _]].
Qed.

Lemma resize_default_is_first_column_witness :
  let t := mk_Table (Some 3) 0 (("a", 0%nat) :: ("b", 1%nat) :: nil) nil in
  let h := <[1%nat := array_of (7 :: nil)]> store_ab in
  h !! 2%nat = Some (TableObj t) /\ len h 0%nat = Ok 3 /\
  Table_resize 1 h 2%nat None true = Table_resize 1 h 2%nat (Some 3) true.
Proof.
  intros t h.
  assert (Et : h !! 2%nat = Some (TableObj t)) by reflexivity.
  assert (El : len h 0%nat = Ok 3) by reflexivity.
  split; [exact Et|]. split; [exact El|].
  exact (proj1 (resize_default_is_first_column 1 h 2%nat t "a" 0%nat
                  (("b", 1%nat) :: nil) 3 true Et eq_refl El)).
Defined.

(** X4.  [resize(n)] is idempotent for [n >= 0]: after a call that returned,
    a second [resize(n)] returns and changes nothing. *)
Theorem resize_idempotent (fuel fuel' : nat) (h : heap) (self : ref) (n : Z)
    (do_warn do_warn' : bool) (h' : heap) :
  0 <= n ->
  Table_resize fuel h self (Some n) do_warn = Ok h' ->
  Table_resize (S fuel') h' self (Some n) do_warn' = Ok h'.
Proof.
  intros Hn E.
  apply Table_resize_post in E as (_ & t' & Et' & Hs & A).
  rewrite (Table_resize_S _ _ _ _ _ t' Et').
  rewrite resize_items_agreeing.
  - simpl. rewrite (assign_size_ok _ _ t') by done. f_equal.
    apply insert_id. by rewrite Et', <- Hs, set_size_id.
  - eapply Forall_impl; [exact A|]. intros kv Hkv. by apply len_of_length_at.
Qed.

Lemma resize_idempotent_witness :
  exists h', 0 <= 5 /\
    Table_resize 1 store_ab 2%nat (Some 5) false = Ok h' /\
    Table_resize 1 h' 2%nat (Some 5) true = Ok h'.
Proof.
  assert (Hn : 0 <= 5) by lia.
  assert (E : Table_resize 1 store_ab 2%nat (Some 5) false = Ok
    (<[2%nat := TableObj (mk_Table (Some 5) 0
                 (("a", 0%nat) :: ("b", 1%nat) :: nil) nil)]>
     (<[1%nat := array_of (10 :: 20 :: 30 :: 0 :: 0 :: nil)]>
     (<[0%nat := array_of (1 :: 2 :: 3 :: 0 :: 0 :: nil)]> ∅))))
    by (vm_compute; reflexivity).
  eexists. split; [exact Hn|]. split; [exact E|].
  exact (resize_idempotent 1 0 store_ab 2%nat 5 false true _ Hn E).
Defined.

(** X5.  A table of size [s] whose first column is the table itself cannot
    be resized to another size: [resize] calls itself on the same object
    without end, so the call fails with a [RecursionError] whatever the
    recursion budget. *)
Theorem resize_of_self_column_never_returns (h : heap) (self : ref)
    (t : Table) (field : string) (rest : list (string * ref)) (s n : Z) :
  h !! self = Some (TableObj t) -> cols t = (field, self) :: rest ->
  size t = Some s -> 0 <= s -> s <> n ->
  forall fuel do_warn,
    Table_resize fuel h self (Some n) do_warn = Raise RecursionError.
Proof.
  intros Et Hc Hs Hs0 Hne fuel. induction fuel as [|fuel IH]; intros dw; [done|].
  rewrite (Table_resize_S _ _ _ _ _ t Et), Hc. simpl.
  assert (len h self = Ok s) as ->.
  { apply len_of_length_at; [|done]. unfold length_at. by rewrite Et. }
  simpl. rewrite decide_True by done.
  unfold obj_resize. rewrite Et. by rewrite IH.
Qed.

Lemma resize_of_self_column_never_returns_witness :
  let t := mk_Table (Some 3) 0 (("me", 0%nat) :: nil) nil in
  store_cycle !! 0%nat = Some (TableObj t) /\ 0 <= 3 /\ 3 <> 5 /\
  Table_resize 100 store_cycle 0%nat (Some 5) false = Raise RecursionError.
Proof.
  intros t.
  assert (Et : store_cycle !! 0%nat = Some (TableObj t)) by reflexivity.
  assert (H0 : 0 <= 3) by lia. assert (Hne : 3 <> 5) by lia.
  split; [exact Et|]. split; [exact H0|]. split; [exact Hne|].
  exact (resize_of_self_column_never_returns store_cycle 0%nat t "me" nil 3 5
           Et eq_refl eq_refl H0 Hne 100%nat false).
Defined.


Lemma dict_update_head {V} (rest : list (string * V)) : forall k v acc,
  k ∉ dict_keys rest ->
  exists acc', fold_left (fun a kv => dict_set a kv.1 kv.2) rest ((k, v) :: acc)
               = (k, v) :: acc'.
Proof.
  induction rest as [|[k' v'] rest IH]; intros k v acc Hk; simpl.
  - eauto.
  - apply not_elem_of_cons in Hk as [Hne Hk]. simpl in Hne.
    rewrite decide_False by done. by apply IH.
Qed.

Lemma alloc_fresh (h : heap) : h !! fresh (dom h) = None.
Proof. apply not_elem_of_dom, is_fresh. Qed.

(** What the constructor does, when it returns. *)
Lemma init_cases fuel h sz col_dict ats self h' :
  Table_init fuel h sz col_dict ats = Ok (self, h') ->
  let t0 := Struct_init col_dict ats in
  let h0 := <[self := TableObj t0]> h in
  self = fresh (dom h) /\
  exists h1 t1, h1 !! self = Some (TableObj t1) /\
    h' = <[self := TableObj (set_loc t1 0)]> h1 /\
    match col_dict with
    | Some (_ :: _) =>
        Table_resize fuel h0 self sz (bool_decide (sz = None)) = Ok h1
    | _ => h1 = <[self := TableObj (set_size t0 sz)]> h0
    end.
Proof.
  unfold Table_init, alloc. intros E.
  apply bind_ok in E as (h1 & E1 & E). apply bind_ok in E as (h2 & E2 & [= <- <-]).
  split; [done|]. set (self := fresh (dom h)) in *.
  set (t0 := Struct_init col_dict ats) in *.
  unfold assign_loc in E2. apply bind_ok in E2 as (t1 & Et1 & [= <-]).
  apply get_table_ok in Et1. exists h1, t1. split; [done|]. split; [done|].
  assert (Hsz : match sz with Some s => Some s | None => None end = sz)
    by (by destruct sz).
  assert (Hnone :
            assign_size (<[self := TableObj t0]> h) self
              (match sz with Some s => Some s | None => None end) = Ok h1 ->
            h1 = <[self := TableObj (set_size t0 sz)]> (<[self := TableObj t0]> h)).
  { intros Ea. rewrite (assign_size_ok _ _ t0), Hsz in Ea
      by apply lookup_insert_eq. by injection Ea as <-. }
  destruct col_dict as [[|kv d]|]; [by apply Hnone|done|by apply Hnone].
Qed.



(** X7.  Constructed with columns, a table gets the requested size, or
    without one the length of the first column of [col_dict], which is then
    left untouched; every column has that length afterwards. *)
Theorem init_size_from_columns (fuel : nat) (h : heap) (sz : option Z)
    (field : string) (obj : ref) (rest : list (string * ref))
    (ats : option (list (string * string))) (self : ref) (h' : heap) :
  field ∉ dict_keys rest ->
  Table_init fuel h sz (Some ((field, obj) :: rest)) ats = Ok (self, h') ->
  exists n, size_at h' self = Some n /\
    (forall name c, getitem h' self name = Ok c -> length_at h' c = Some n) /\
    match sz with
    | Some m => n = m
    | None => len h obj = Ok n /\ h' !! obj = h !! obj
    end.
Proof.
  intros Hfield E. destruct (init_cases _ _ _ _ _ _ _ E)
    as (-> & h1 & t1 & Et1 & -> & Er).
  set (self := fresh (dom h)) in *.
  set (t0 := Struct_init (Some ((field, obj) :: rest)) ats) in *.
  set (h0 := <[self := TableObj t0]> h) in *.
  assert (E0 : h0 !! self = Some (TableObj t0)) by apply lookup_insert_eq.
  assert (exists acc, cols t0 = (field, obj) :: acc) as [acc Hc].
  { unfold t0, Struct_init, dict_update. simpl.
    by apply dict_update_head. }
  destruct (Table_resize_cases _ _ _ _ _ _ _ E0 Er)
    as [(_ & Hnil & _) | (n & Hn & En)]; [congruence|].
  pose proof En as En'.
  apply Table_resize_post in En' as (_ & t' & Et' & Hs & A).
  assert (t' = t1) as -> by congruence.
  exists n. split; [unfold size_at; by rewrite lookup_insert_eq|]. split.
  { intros name c (cs & Hcs & Hin)%getitem_elem.
    rewrite cols_at_insert, decide_True in Hcs by done. injection Hcs as <-.
    rewrite length_at_set_loc by done.
    rewrite Forall_forall in A. by apply (A (name, c)). }
  destruct sz as [m|].
  - destruct Hn as [[= ->]|[? _]]; done.
  - destruct Hn as [?|(_ & f & o & r & Hc' & El)]; [done|].
    assert (o = obj) as -> by congruence.
    assert (Hne : self <> obj).
    { intros <-. unfold len in El. rewrite E0 in El. discriminate. }
    unfold h0 in El. rewrite len_insert_ne in El by done. split; [done|].
    rewrite lookup_insert_ne by done.
    apply Table_resize_changes in En as [_ R].
    destruct (R obj) as [Hsame|[Hx _]].
    + rewrite Hsame. unfold h0. by rewrite lookup_insert_ne.
    + exfalso. apply Hx. unfold h0, length_at. rewrite lookup_insert_ne by done.
      by apply len_length in El as [? _].
Qed.

Lemma init_size_from_columns_witness :
  exists self h',
    ("a" ∉ dict_keys (("b", 3%nat) :: nil)) /\
    Table_init 1 store_abc None (Some (("a", 0%nat) :: ("b", 3%nat) :: nil)) None
      = Ok (self, h') /\
    size_at h' self = Some 3 /\ length_at h' 3%nat = Some 3.
Proof.
  assert (Hk : "a" ∉ dict_keys (("b", 3%nat) :: nil)).
  { intros [?|H]%elem_of_cons; [done|]. by apply elem_of_nil in H. }
  assert (E : Table_init 1 store_abc None
                (Some (("a", 0%nat) :: ("b", 3%nat) :: nil)) None
              = Ok (4%nat,
                    <[4%nat := TableObj (mk_Table (Some 3) 0
                        (("a", 0%nat) :: ("b", 3%nat) :: nil) nil)]>
                    (<[3%nat := array_of (1 :: 2 :: 3 :: nil)]> store_abc)))
    by (vm_compute; reflexivity).
  eexists _, _. split; [exact Hk|]. split; [exact E|].
  destruct (init_size_from_columns 1 store_abc None "a" 0%nat
              (("b", 3%nat) :: nil) None _ _ Hk E) as (n & Hs & Hall & Hl & _).
  assert (n = 3) as -> by (by injection Hl).
  split; [exact Hs|]. exact (Hall "b" 3%nat eq_refl).
Defined.

(** [add_field] when no length has to be reconciled. *)
Lemma add_field_agreeing fuel h self t name obj uos l :
  h !! self = Some (TableObj t) ->
  size t = None \/ size t = Some l ->
  len h obj = Ok l ->
  Table_add_field fuel h self name obj uos
    = Ok (<[self := TableObj (mk_Table (Some l) (loc t)
                               (dict_set (cols t) name obj) (attrs t))]> h).
Proof.
  intros Et Hs El. unfold Table_add_field.
  assert (exists o, h !! obj = Some o /\ has_len o = true) as (o & Eo & Ho).
  { unfold len in El. destruct (h !! obj) as [o|]; [|discriminate].
    exists o. split; [done|]. by destruct o. }
  rewrite Eo, Ho. simpl. unfold Struct_add_field.
  rewrite (proj2 (get_table_ok _ _ _) Et). simpl.
  set (t1 := set_cols t (dict_set (cols t) name obj)).
  set (h1 := <[self := TableObj t1]> h).
  assert (E1 : h1 !! self = Some (TableObj t1)) by apply lookup_insert_eq.
  assert (El1 : len h1 obj = Ok l) by (unfold h1, t1; by rewrite len_set_cols).
  rewrite (proj2 (get_table_ok _ _ _) E1). simpl.
  destruct Hs as [Hs|Hs]; rewrite Hs; simpl.
  - rewrite El1. simpl. rewrite (assign_size_ok _ _ t1) by done. simpl.
    set (t2 := set_size t1 (Some l)).
    assert (E2 : (<[self := TableObj t2]> h1) !! self = Some (TableObj t2))
      by apply lookup_insert_eq.
    rewrite (proj2 (get_table_ok _ _ _) E2). simpl.
    assert (len (<[self := TableObj t2]> h1) obj = Ok l) as ->.
    { destruct (decide (self = obj)) as [<-|Hne].
      - unfold len in El. rewrite Et in El. unfold len_obj in El. simpl in El.
        rewrite Hs in El. discriminate.
      - by rewrite len_insert_ne. }
    simpl. rewrite decide_False by (intros Hx; by apply Hx).
    f_equal. unfold h1. by rewrite insert_insert_eq.
  - rewrite (proj2 (get_table_ok _ _ _) E1). simpl. rewrite El1. simpl.
    rewrite Hs. rewrite decide_False by (intros Hx; by apply Hx).
    f_equal. unfold h1, t1, set_cols. by rewrite Hs.
Qed.



(** X9.  A [Scalar] never becomes a column: [add_field] raises a
    [TypeError] on it, so does the constructor when it is the first column
    of [col_dict], and after a constructor call that returned every column
    has a length. *)
Theorem scalar_is_never_a_column (fuel : nat) (h : heap) (name : string)
    (obj : ref) (v : Z) :
  h !! obj = Some (Scalar v) ->
  (forall self use_obj_size,
     Table_add_field fuel h self name obj use_obj_size = Raise TypeError) /\
  (forall sz rest ats,
     name ∉ dict_keys rest ->
     Table_init (S fuel) h sz (Some ((name, obj) :: rest)) ats
       = Raise TypeError) /\
  (forall sz col_dict ats self h' name' c,
     Table_init fuel h sz col_dict ats = Ok (self, h') ->
     getitem h' self name' = Ok c ->
     exists n, length_at h' c = Some n /\ forall v', h' !! c <> Some (Scalar v')).
Proof.
  intros Eo. split; [|split].
  - intros self uos. unfold Table_add_field. by rewrite Eo.
  - intros sz rest ats Hname. unfold Table_init, alloc.
    set (self := fresh (dom h)).
    set (t0 := Struct_init (Some ((name, obj) :: rest)) ats).
    assert (Hne : self <> obj).
    { intros Heq. pose proof (alloc_fresh h) as Hf. fold self in Hf.
      rewrite Heq, Eo in Hf. discriminate. }
    assert (exists acc, cols t0 = (name, obj) :: acc) as [acc Hc]
      by (by apply dict_update_head).
    cbn [length Nat.ltb Nat.leb].
    rewrite (Table_resize_S _ _ _ _ _ t0) by apply lookup_insert_eq.
    rewrite Hc. simpl.
    assert (len (<[self := TableObj t0]> h) obj = Raise TypeError) as Hl.
    { rewrite len_insert_ne by done. unfold len. by rewrite Eo. }
    destruct sz; rewrite Hl; done.
  - intros sz col_dict ats self h' name' c E Hg.
    apply init_inv in E. unfold table_inv in E.
    apply getitem_elem in Hg as (cs & Hcs & Hin). unfold cols_at in Hcs.
    destruct (h' !! self) as [[| | | |t]|]; try done.
    injection Hcs as <-. rewrite Forall_forall in E.
    destruct (E _ Hin) as [[n Hn] Hl]. simpl in Hl. exists n.
    split; [congruence|]. intros v' Hc. unfold length_at in Hl.
    rewrite Hc, Hn in Hl. discriminate.
Qed.

Lemma scalar_is_never_a_column_witness :
  let h : heap := <[5%nat := Scalar 7]> store_ab in
  h !! 5%nat = Some (Scalar 7) /\
  Table_add_field 1 h 2%nat "s" 5%nat false = Raise TypeError.
Proof.
  intros h. assert (Eo : h !! 5%nat = Some (Scalar 7)) by reflexivity.
  split; [exact Eo|].
  exact (proj1 (scalar_is_never_a_column 1 h "s" 5%nat 7 Eo) 2%nat false).
Defined.

Lemma add_field_result fuel h self t name obj uos h1 :
  h !! self = Some (TableObj t) ->
  (forall s, size t = Some s -> 0 <= s) ->
  Table_add_field fuel h self name obj uos = Ok h1 ->
  exists t1 n, h1 !! self = Some (TableObj t1) /\ size t1 = Some n /\
    0 <= n /\ cols t1 = dict_set (cols t) name obj /\
    length_at h1 obj = Some n.
Proof.
  intros Et Hs0 E.
  destruct (add_field_cases _ _ _ _ _ _ _ _ Et E) as (l & El & Hcase).
  set (t1 := set_cols t (dict_set (cols t) name obj)) in *.
  set (h1' := <[self := TableObj t1]> h) in *.
  pose proof El as [Hl Hl0]%len_length.
  destruct (size t) as [s|] eqn:Hs.
  - destruct Hcase as [[-> ->]|[Hne Er]].
    + exists t1, l. split; [apply lookup_insert_eq|]. by repeat split.
    + apply Table_resize_post in Er as (((_ & F & _) & _) & t' & Et' & Hs' & A).
      exists t', (if uos then l else s). split; [done|]. split; [done|].
      split; [destruct uos; auto|].
      assert (cols t' = dict_set (cols t) name obj) as Hc.
      { specialize (F self). unfold cols_at in F.
        rewrite Et' in F. unfold h1' in F. rewrite lookup_insert_eq in F.
        simpl in F. congruence. }
      split; [done|]. rewrite Forall_forall in A.
      apply (A (name, obj)). rewrite Hc. apply dict_get_elem.
      by rewrite dict_get_set, decide_True.
  - subst h1. exists (set_size t1 (Some l)), l.
    split; [apply lookup_insert_eq|]. split; [done|]. split; [done|].
    split; [done|]. rewrite length_at_insert. by case_decide.
Qed.

(** X10.  [add_field] is idempotent on a table whose size is unset or not
    negative: after a call that returned, adding the same object under the
    same name again returns and changes nothing. *)
Theorem add_field_idempotent (fuel fuel' : nat) (h : heap) (self : ref)
    (t : Table) (name : string) (obj : ref) (use_obj_size use_obj_size' : bool)
    (h1 : heap) :
  h !! self = Some (TableObj t) ->
  (forall s, size t = Some s -> 0 <= s) ->
  Table_add_field fuel h self name obj use_obj_size = Ok h1 ->
  Table_add_field fuel' h1 self name obj use_obj_size' = Ok h1.
Proof.
  intros Et Hs0 E.
  destruct (add_field_result _ _ _ _ _ _ _ _ Et Hs0 E)
    as (t1 & n & Et1 & Hs1 & Hn & Hc & Hl).
  rewrite (add_field_agreeing _ _ _ t1 _ _ _ n); auto using len_of_length_at.
  f_equal. apply insert_id. rewrite Et1. do 2 f_equal.
  rewrite dict_set_same.
  - destruct t1; simpl in *; by subst.
  - by rewrite Hc, dict_get_set, decide_True.
Qed.

Lemma add_field_idempotent_witness :
  let t := mk_Table (Some 3) 0 (("a", 0%nat) :: ("b", 1%nat) :: nil) nil in
  store_abc !! 2%nat = Some (TableObj t) /\
  exists h1, Table_add_field 1 store_abc 2%nat "c" 3%nat true = Ok h1 /\
             Table_add_field 0 h1 2%nat "c" 3%nat false = Ok h1.
Proof.
  intros t.
  assert (Et : store_abc !! 2%nat = Some (TableObj t)) by reflexivity.
  split; [exact Et|].
  assert (E : Table_add_field 1 store_abc 2%nat "c" 3%nat true = Ok
    (<[2%nat := TableObj (mk_Table (Some 5) 0
               (("a", 0%nat) :: ("b", 1%nat) :: ("c", 3%nat) :: nil) nil)]>
     (<[1%nat := array_of (10 :: 20 :: 30 :: 0 :: 0 :: nil)]>
     (<[0%nat := array_of (1 :: 2 :: 3 :: 0 :: 0 :: nil)]> store_abc))))
    by (vm_compute; reflexivity).
  eexists. split; [exact E|].
  refine (add_field_idempotent 1 0 store_abc 2%nat t "c" 3%nat true false _
            Et _ E).
  intros s [= <-]. lia.
Defined.







Lemma join_loop_self fuel h self t names :
  h !! self = Some (TableObj t) -> table_inv h self ->
  (forall s, size t = Some s -> 0 <= s) ->
  Forall (fun name => is_Some (dict_get (cols t) name)) names ->
  join_loop fuel names h self self = Ok h.
Proof.
  intros Et Hinv Hs0. unfold table_inv in Hinv. rewrite Et in Hinv.
  rewrite Forall_forall in Hinv.
  induction names as [|name rest IH]; intros Hall; [done|].
  apply Forall_cons in Hall as [[r Hr] Hrest]. simpl.
  assert (getitem h self name = Ok r) as ->.
  { apply getitem_ok. exists (cols t). unfold cols_at. by rewrite Et. }
  simpl. unfold Table_add_column.
  destruct (Hinv (name, r)) as [[s Hs] Hl]; [by apply dict_get_elem|].
  simpl in Hl. rewrite Hs in Hl.
  rewrite (add_field_agreeing _ _ _ t _ _ _ s);
    auto using len_of_length_at.
  simpl. rewrite dict_set_same by done.
  assert (<[self := TableObj (mk_Table (Some s) (loc t) (cols t) (attrs t))]> h
          = h) as ->; [|by apply IH].
  apply insert_id. rewrite Et. do 2 f_equal. destruct t; simpl in *; by subst.
Qed.

Lemma dict_get_keys {V} (d : list (string * V)) k :
  k ∈ dict_keys d -> is_Some (dict_get d k).
Proof.
  induction d as [|[k0 v0] d IH]; simpl; [by intros ?%elem_of_nil|].
  case_decide; [eauto|]. intros [?|?]%elem_of_cons; [done|auto].
Qed.

(** X12.  Joining a table with itself changes nothing, when its columns
    have the length [size] (not negative) and the requested names are its
    fields. *)
Theorem join_with_itself (fuel : nat) (h : heap) (self : ref) (t : Table)
    (cols_arg : option (list string)) (do_warn : bool) :
  h !! self = Some (TableObj t) -> table_inv h self ->
  (forall s, size t = Some s -> 0 <= s) ->
  Forall (fun name => is_Some (dict_get (cols t) name))
    (default (dict_keys (cols t)) cols_arg) ->
  Table_join fuel h self self cols_arg do_warn = Ok h.
Proof.
  intros Et Hinv Hs0 Hall. unfold Table_join.
  rewrite (proj2 (get_table_ok _ _ _) Et). simpl.
  destruct cols_arg as [c|]; by eapply join_loop_self.
Qed.

Lemma join_with_itself_witness :
  Table_join 0 store_ab 2%nat 2%nat None true = Ok store_ab.
Proof.
  refine (join_with_itself 0 store_ab 2%nat
            (mk_Table (Some 3) 0 (("a", 0%nat) :: ("b", 1%nat) :: nil) nil)
            None true eq_refl _ _ _).
  - unfold table_inv. simpl. repeat constructor; by eexists.
  - intros s [= <-]. lia.
  - simpl. repeat constructor; by eexists.
Defined.

Lemma dict_set_notin {V} (d : list (string * V)) k v :
  k ∉ dict_keys d -> dict_set d k v = d ++ (k, v) :: nil.
Proof.
  induction d as [|[k0 v0] d IH]; simpl; [done|].
  intros [Hne Hk]%not_elem_of_cons. rewrite decide_False by done.
  f_equal. by apply IH.
Qed.

Lemma dict_update_fresh {V} (l : list (string * V)) : forall acc,
  NoDup (dict_keys (acc ++ l)) -> dict_update acc l = acc ++ l.
Proof.
  unfold dict_update.
  induction l as [|[k v] l IH]; intros acc Hnd; simpl.
  - by rewrite app_nil_r.
  - assert (Hk : k ∉ dict_keys acc).
    { unfold dict_keys in *. rewrite map_app in Hnd.
      apply NoDup_app in Hnd as (_ & Hd & _). intros Hin.
      apply (Hd k Hin). simpl. by left. }
    rewrite dict_set_notin by done. rewrite IH.
    + by rewrite <- app_assoc.
    + by rewrite <- app_assoc.
Qed.

Lemma dict_get_app_notin {V} (pre l : list (string * V)) k :
  k ∉ dict_keys pre -> dict_get (pre ++ l) k = dict_get l k.
Proof.
  induction pre as [|[k0 v0] pre IH]; simpl; [done|].
  intros [Hne Hk]%not_elem_of_cons. rewrite decide_False by done. auto.
Qed.

(** The field mapping of [self] after the loop of [join]. *)
Lemma join_loop_fields fuel self other fields names : forall h h' cs,
  cols_at h other = Some fields -> cols_at h self = Some cs ->
  join_loop fuel names h self other = Ok h' ->
  cols_at h' self =
    Some (fold_left (fun acc k => match dict_get fields k with
                                  | Some r => dict_set acc k r
                                  | None => acc
                                  end) names cs).
Proof.
  induction names as [|name rest IH]; intros h h' cs Hf Hcs E.
  - simpl in E. by injection E as <-.
  - destruct (join_loop_post fuel self other fields (name :: nil) h)
      with (h' := match getitem h other name with
                  | Ok obj => match Table_add_column fuel h self name obj false
                              with Ok h1 => h1 | Raise _ => h end
                  | Raise _ => h end) as (Hf1 & _ & _); [done| |].
    { simpl. simpl in E. destruct (getitem h other name) as [obj|]; [|done].
      simpl in *. by destruct (Table_add_column fuel h self name obj false). }
    simpl in E. apply bind_ok in E as (obj & Eobj & E).
    apply bind_ok in E as (h1 & E1 & E). rewrite Eobj, E1 in Hf1.
    unfold Table_add_column in E1.
    assert (exists t, h !! self = Some (TableObj t) /\ cols t = cs)
      as (t & Et & <-).
    { unfold cols_at in Hcs. destruct (h !! self) as [[| | | |t]|]; try done.
      injection Hcs as <-. eauto. }
    destruct (add_field_fields _ _ _ _ _ _ _ _ Et E1) as [Fs _].
    apply getitem_ok in Eobj as (fs & Hfs & Hd).
    assert (fs = fields) as -> by congruence.
    simpl. rewrite Hd. by eapply IH.
Qed.

Lemma fold_keys_is_update {V} (fields suf : list (string * V)) : forall pre cs,
  fields = pre ++ suf -> NoDup (dict_keys fields) ->
  fold_left (fun acc k => match dict_get fields k with
                          | Some r => dict_set acc k r
                          | None => acc
                          end) (dict_keys suf) cs
  = dict_update cs suf.
Proof.
  unfold dict_update.
  induction suf as [|[k v] suf IH]; intros pre cs Hf Hnd; [done|].
  simpl. assert (dict_get fields k = Some v) as ->.
  { subst fields. rewrite dict_get_app_notin; [simpl; by rewrite decide_True|].
    unfold dict_keys in *. rewrite map_app in Hnd.
    apply NoDup_app in Hnd as (_ & Hd & _). intros Hin.
    apply (Hd k Hin). simpl. by left. }
  apply (IH (pre ++ (k, v) :: nil)); [|done]. by rewrite <- app_assoc.
Qed.

(** X13.  After [self.join(other_table)] without [cols], the field mapping
    of [self] is its old mapping updated with that of [other_table]: old
    fields keep their place, joined names are replaced or appended in the
    order of [other_table].  A table without fields gets exactly the mapping
    of [other_table]. *)
Theorem join_updates_the_mapping (fuel : nat) (h : heap)
    (self other_table : ref) (do_warn : bool) (h' : heap)
    (fields cs : list (string * ref)) :
  cols_at h other_table = Some fields -> cols_at h self = Some cs ->
  NoDup (dict_keys fields) ->
  Table_join fuel h self other_table None do_warn = Ok h' ->
  cols_at h' self = Some (dict_update cs fields) /\
  (cs = nil -> cols_at h' self = Some fields).
Proof.
  intros Hf Hcs Hnd E. unfold Table_join in E.
  apply bind_ok in E as (other & Eo & E). apply bind_ok in E as (me & _ & E).
  apply get_table_ok in Eo.
  assert (cols other = fields) as Hco.
  { unfold cols_at in Hf. rewrite Eo in Hf. by injection Hf. }
  rewrite Hco in E.
  rewrite (join_loop_fields _ _ _ _ _ _ _ _ Hf Hcs E).
  rewrite (fold_keys_is_update fields fields nil cs eq_refl Hnd).
  split; [done|]. intros ->. by rewrite dict_update_fresh.
Qed.

Lemma join_updates_the_mapping_witness :
  let fields := ("a", 0%nat) :: ("b", 1%nat) :: nil in
  cols_at store_join 2%nat = Some fields /\
  cols_at store_join 3%nat = Some nil /\ NoDup (dict_keys fields) /\
  exists h', Table_join 1 store_join 3%nat 2%nat None false = Ok h' /\
             cols_at h' 3%nat = Some fields.
Proof.
  intros fields.
  assert (Hf : cols_at store_join 2%nat = Some fields) by reflexivity.
  assert (Hcs : cols_at store_join 3%nat = Some nil) by reflexivity.
  assert (Hnd : NoDup (dict_keys fields)).
  { simpl. repeat constructor; rewrite ?elem_of_cons, ?elem_of_nil;
      intros H; repeat destruct H as [H|H]; done. }
  split; [exact Hf|]. split; [exact Hcs|]. split; [exact Hnd|].
  assert (E : Table_join 1 store_join 3%nat 2%nat None false = Ok
    (<[3%nat := TableObj (mk_Table (Some 3) 0 fields nil)]> store_ab))
    by (vm_compute; reflexivity).
  eexists. split; [exact E|].
  exact (proj2 (join_updates_the_mapping 1 store_join 3%nat 2%nat false _
                  fields nil Hf Hcs Hnd E) eq_refl).
Defined.

(** X14.  After [k] calls of [push_row] on a table of size [s] the cursor
    is [loc + k] and [is_full] is [s <= loc + k]; a [clear] after that makes
    [is_full] the test [s <= 0]; once full, a table stays full under
    [push_row]. *)
Theorem is_full_after_pushes (h : heap) (self : ref) (t : Table) (s : Z)
    (k : nat) :
  h !! self = Some (TableObj t) -> size t = Some s ->
  exists h1 h2,
    push_rows k h self = Ok h1 /\
    Table_is_full h1 self = Ok (bool_decide (s <= loc t + Z.of_nat k)) /\
    Table_clear h1 self = Ok h2 /\
    Table_is_full h2 self = Ok (bool_decide (s <= 0)) /\
    (Table_is_full h self = Ok true -> Table_is_full h1 self = Ok true).
Proof.
  intros Et Hs.
  assert (Hge : forall a, (a >=? s) = bool_decide (s <= a)).
  { intros a. rewrite Z.geb_leb. case_bool_decide; [by apply Z.leb_le|].
    by apply Z.leb_gt; lia. }
  set (t1 := set_loc t (loc t + Z.of_nat k)).
  exists (<[self := TableObj t1]> h),
         (<[self := TableObj (set_loc t1 0)]> (<[self := TableObj t1]> h)).
  split; [by apply push_rows_ok|].
  assert (F1 : Table_is_full (<[self := TableObj t1]> h) self
               = Ok (bool_decide (s <= loc t + Z.of_nat k))).
  { rewrite (is_full_ok _ _ t1 s); [|apply lookup_insert_eq|done].
    by rewrite Hge. }
  split; [done|]. split; [apply assign_loc_ok, lookup_insert_eq|]. split.
  - rewrite (is_full_ok _ _ (set_loc t1 0) s); [|apply lookup_insert_eq|done].
    by rewrite Hge.
  - rewrite (is_full_ok _ _ t s), Hge, F1 by done.
    intros [= Hb]. apply bool_decide_eq_true in Hb. f_equal.
    apply bool_decide_eq_true. lia.
Qed.

Lemma is_full_after_pushes_witness :
  let t := mk_Table (Some 3) 0 (("a", 0%nat) :: ("b", 1%nat) :: nil) nil in
  store_ab !! 2%nat = Some (TableObj t) /\
  exists h1, push_rows 2 store_ab 2%nat = Ok h1 /\
             Table_is_full h1 2%nat = Ok false.
Proof.
  intros t.
  assert (Et : store_ab !! 2%nat = Some (TableObj t)) by reflexivity.
  split; [exact Et|].
  destruct (is_full_after_pushes store_ab 2%nat t 3 2 Et eq_refl)
    as (h1 & h2 & E1 & E2 & _).
  exists h1. split; [exact E1|exact E2].
Defined.

(** X15.  A table constructed without size and without columns has size
    [None]: [len] and [is_full] raise a [TypeError] on it, also after
    [push_row], and adding it as a column to any table raises a
    [TypeError]. *)
Theorem table_without_size_has_no_length (fuel : nat) (h : heap)
    (ats : option (list (string * string)))
    (col_dict : option (list (string * ref))) :
  col_dict = None \/ col_dict = Some nil ->
  exists self h',
    Table_init fuel h None col_dict ats = Ok (self, h') /\
    Table_len h' self = Ok None /\
    len h' self = Raise TypeError /\
    Table_is_full h' self = Raise TypeError /\
    (forall h1, Table_push_row h' self = Ok h1 ->
                Table_is_full h1 self = Raise TypeError) /\
    (forall fuel' other name use_obj_size t,
       h' !! other = Some (TableObj t) ->
       Table_add_field fuel' h' other name self use_obj_size
         = Raise TypeError).
Proof.
  intros Hc. eexists _, _. split; [by apply init_no_columns|].
  set (self := fresh (dom h)).
  set (t0 := mk_Table None 0 nil (default nil ats)).
  set (h' := <[self := TableObj t0]> h).
  assert (E0 : h' !! self = Some (TableObj t0)) by apply lookup_insert_eq.
  assert (Hlen : forall hx tx, hx !! self = Some (TableObj tx) ->
            size tx = None -> len hx self = Raise TypeError).
  { intros hx tx Ex Hs. unfold len. rewrite Ex. unfold len_obj. simpl.
    by rewrite Hs. }
  split; [unfold Table_len; by rewrite (proj2 (get_table_ok _ _ _) E0)|].
  split; [by eapply Hlen|].
  split; [unfold Table_is_full; by rewrite (proj2 (get_table_ok _ _ _) E0)|].
  split.
  - intros h1 E1. rewrite (push_row_ok _ _ t0) in E1 by done.
    injection E1 as <-. unfold Table_is_full.
    by rewrite (proj2 (get_table_ok _ _ _) (lookup_insert_eq _ _ _)).
  - intros fuel' other name uos t Eo. unfold Table_add_field.
    rewrite E0. simpl. unfold Struct_add_field.
    rewrite (proj2 (get_table_ok _ _ _) Eo). simpl.
    set (t1 := set_cols t (dict_set (cols t) name self)).
    set (h1 := <[other := TableObj t1]> h').
    assert (E1 : h1 !! other = Some (TableObj t1)) by apply lookup_insert_eq.
    rewrite (proj2 (get_table_ok _ _ _) E1). simpl.
    assert (Hl1 : len h1 self = Raise TypeError).
    { destruct (decide (other = self)) as [->|Hne].
      - apply (Hlen _ t1); [done|]. simpl.
        rewrite E0 in Eo. by injection Eo as <-.
      - unfold h1. rewrite len_insert_ne by done. by eapply Hlen. }
    destruct (size t) as [s|] eqn:Hs; simpl.
    + rewrite (proj2 (get_table_ok _ _ _) E1). simpl. by rewrite Hl1.
    + by rewrite Hl1.
Qed.

Lemma table_without_size_has_no_length_witness :
  exists self h',
    Table_init 0 store_ab None None None = Ok (self, h') /\
    Table_is_full h' self = Raise TypeError /\
    Table_add_field 1 h' 2%nat "t" self false = Raise TypeError.
Proof.
  destruct (table_without_size_has_no_length 0 store_ab None None
              (or_introl eq_refl)) as (self & h' & E & _ & _ & Hf & _ & Ha).
  exists self, h'. split; [exact E|]. split; [exact Hf|].
  assert (Eh : h' = <[3%nat := TableObj (mk_Table None 0 nil nil)]> store_ab)
    by (vm_compute in E; by injection E as _ <-).
  refine (Ha 1%nat 2%nat "t" false
            (mk_Table (Some 3) 0 (("a", 0%nat) :: ("b", 1%nat) :: nil) nil) _).
  rewrite Eh. reflexivity.
Defined.

Section ViewPd.
Context `{Libraries}.

Lemma view_pd_loop_names rec h t wu names : forall prefix df df',
  view_pd_loop rec h t wu prefix names df = Ok df' ->
  Forall (fun name => is_Some (dict_get (cols t) name)) names.
Proof.
  induction names as [|col rest IH]; intros prefix df df' E; [done|].
  simpl in E. destruct (dict_get (cols t) col) as [r|] eqn:Hd; [|done].
  constructor; [by rewrite Hd|].
  destruct (h !! r) as [o|]; [|done].
  destruct o; simpl in E;
    repeat match type of E with
    | (if ?b then _ else _) = _ => destruct b
    | _ ≫= _ = Ok _ => apply bind_ok in E as (? & _ & E)
    end; by eapply IH.
Qed.

Lemma view_as_pd_S fuel h self t wu cols_arg prefix :
  h !! self = Some (TableObj t) ->
  Table_view_as (S fuel) h self "pd" wu cols_arg prefix =
    df ← view_pd_loop
           (fun h r prefix' =>
              v ← Table_view_as fuel h r "pd" wu None prefix';
              match v with
              | ViewDataFrame d => Ok d
              | ViewAk _ => Raise TypeError
              end)
           h t wu prefix (default (dict_keys (cols t)) cols_arg) pd_DataFrame;
    Ok (ViewDataFrame df).
Proof.
  intros Et. cbn [Table_view_as]. rewrite decide_True by done.
  rewrite (proj2 (get_table_ok _ _ _) Et). simpl. by destruct cols_arg.
Qed.
End ViewPd.

(** X16.  [view_as("pd")] (and [get_dataframe], whatever [copy]) returns
    only when every requested name is a field of the table, and then a data
    frame; a first name that is no field raises a [KeyError]; an empty list
    of names gives the empty [pd.DataFrame()]. *)
Theorem view_as_pd_needs_its_columns `{Libraries} (fuel : nat) (h : heap)
    (self : ref) (t : Table) (with_units : bool) (prefix : string) :
  h !! self = Some (TableObj t) ->
  (forall cols_arg v,
     Table_view_as fuel h self "pd" with_units cols_arg prefix = Ok v ->
     (exists df, v = ViewDataFrame df) /\
     Forall (fun name => is_Some (dict_get (cols t) name))
       (default (dict_keys (cols t)) cols_arg)) /\
  (forall name rest,
     dict_get (cols t) name = None ->
     Table_view_as (S fuel) h self "pd" with_units (Some (name :: rest)) prefix
       = Raise KeyError) /\
  Table_view_as (S fuel) h self "pd" with_units (Some nil) prefix
    = Ok (ViewDataFrame pd_DataFrame) /\
  (forall cols_arg copy v,
     Table_get_dataframe fuel h self cols_arg copy prefix = Ok v ->
     Forall (fun name => is_Some (dict_get (cols t) name))
       (default (dict_keys (cols t)) cols_arg)).
Proof.
  intros Et.
  assert (Hret : forall wu cols_arg v,
            Table_view_as fuel h self "pd" wu cols_arg prefix = Ok v ->
            (exists df, v = ViewDataFrame df) /\
            Forall (fun name => is_Some (dict_get (cols t) name))
              (default (dict_keys (cols t)) cols_arg)).
  { intros wu cols_arg v E. destruct fuel as [|fuel]; [done|].
    rewrite (view_as_pd_S _ _ _ t) in E by done.
    apply bind_ok in E as (df & E & [= <-]). split; [eauto|].
    by eapply view_pd_loop_names. }
  split; [apply Hret|]. split; [|split].
  - intros name rest Hd. rewrite (view_as_pd_S _ _ _ t) by done.
    simpl. by rewrite Hd.
  - by rewrite (view_as_pd_S _ _ _ t).
  - intros cols_arg copy v E. by apply Hret in E as [_ ?].
Qed.

Lemma view_as_pd_needs_its_columns_witness :
  let t := mk_Table (Some 3) 0 (("a", 0%nat) :: ("b", 1%nat) :: nil) nil in
  store_ab !! 2%nat = Some (TableObj t) /\
  Table_view_as 1 store_ab 2%nat "pd" false (Some ("c" :: "a" :: nil)) ""
    = Raise KeyError.
Proof.
  intros t.
  assert (Et : store_ab !! 2%nat = Some (TableObj t)) by reflexivity.
  split; [exact Et|].
  exact (proj1 (proj2 (view_as_pd_needs_its_columns 0 store_ab 2%nat t false ""
                         Et)) "c" ("a" :: nil) eq_refl).
Defined.

Lemma ak_ndim_nest rows : ak_ndim (AkNest rows) <> 1%nat.
Proof.
  destruct rows as [|r rows]; simpl; [done|].
  by destruct r as [xs|[|r' rows']].
Qed.

Lemma wrap_python_cases out :
  wrap_python out =
    match out with
    | PyAk (AkLeaf xs) => Ok (Array (mk_ndarray (length xs :: nil) xs))
    | PyAk (AkNest rows) => Ok (VectorOfVectors (AkNest rows))
    | PyNumber z => Ok (Scalar z)
    | PyNdarray _ | PyObject => Raise RuntimeError
    end.
Proof.
  destruct out as [z|a|[xs|rows]|]; try done.
  unfold wrap_python. by rewrite decide_False by apply ak_ndim_nest.
Qed.

(** X17.  When a name of the expression is a ragged column, [eval] takes
    the [eval] path: an error of the engine is raised, a one-dimensional
    Awkward result becomes an [Array], any other Awkward result a
    [VectorOfVectors], a scalar a [Scalar], and anything else raises a
    [RuntimeError]. *)
Theorem eval_general_path_wraps `{Libraries} `{Engines}
    (h : heap) (self : ref) (t : Table) (expr : string)
    (parameters : option (gmap string pyval)) (names : list string)
    (env : gmap string pyval) (b : bool) :
  h !! self = Some (TableObj t) ->
  co_names expr = Ok names ->
  existsb (refers_ragged h t) names = true ->
  eval_env h self expr parameters = Ok (env, b) ->
  b = true /\
  (forall e, py_eval expr env = Raise e ->
             Table_eval h self expr parameters = Raise e) /\
  (forall out, py_eval expr env = Ok out ->
     Table_eval h self expr parameters =
       match out with
       | PyAk (AkLeaf xs) => Ok (Array (mk_ndarray (length xs :: nil) xs))
       | PyAk (AkNest rows) => Ok (VectorOfVectors (AkNest rows))
       | PyNumber z => Ok (Scalar z)
       | PyNdarray _ | PyObject => Raise RuntimeError
       end).
Proof.
  intros Et En Hr E.
  assert (b = true) as -> by (by rewrite <- Hr; eapply eval_env_has_ak).
  split; [done|].
  assert (Table_eval h self expr parameters = eval_python expr env) as ->
    by (by rewrite eval_by_env, E).
  unfold eval_python. split.
  - intros e Ee. by rewrite Ee.
  - intros out Eo. rewrite Eo. simpl. apply wrap_python_cases.
Qed.

Lemma eval_general_path_wraps_witness :
  let t := mk_Table (Some 3) 0 (("a", 0%nat) :: ("b", 1%nat) :: nil) nil in
  let parameters : gmap string pyval := {[ "b" := PyNumber 2 ]} in
  store_ragged !! 2%nat = Some (TableObj t) /\
  co_names "b + b" = Ok ("b" :: "b" :: nil) /\
  existsb (refers_ragged store_ragged t) ("b" :: "b" :: nil) = true /\
  eval_env store_ragged 2%nat "b + b" (Some parameters) = Ok (parameters, true) /\
  py_eval "b + b" parameters = Ok (PyNumber 4) /\
  Table_eval store_ragged 2%nat "b + b" (Some parameters) = Ok (Scalar 4).
Proof.
  intros t parameters.
  assert (Et : store_ragged !! 2%nat = Some (TableObj t)) by reflexivity.
  assert (En : co_names "b + b" = Ok ("b" :: "b" :: nil)) by reflexivity.
  assert (Hr : existsb (refers_ragged store_ragged t) ("b" :: "b" :: nil) = true)
    by reflexivity.
  assert (E : eval_env store_ragged 2%nat "b + b" (Some parameters)
              = Ok (parameters, true)) by (vm_compute; reflexivity).
  assert (Ep : py_eval "b + b" parameters = Ok (PyNumber 4))
    by (vm_compute; reflexivity).
  repeat (split; [assumption|]).
  exact (proj2 (proj2 (eval_general_path_wraps store_ragged 2%nat t "b + b"
           (Some parameters) _ parameters true Et En Hr E)) _ Ep).
Defined.

Section EvalEnv.
Context `{Libraries} `{Engines}.

Lemma unwrap_loop_lookup h t names : forall su b su' b',
  unwrap_loop h t names su b = Ok (su', b') ->
  forall k,
    (k ∉ names \/ dict_get (cols t) k = None -> su' !! k = su !! k) /\
    (k ∈ names -> forall r, dict_get (cols t) k = Some r ->
       exists v, unwrap_view h r = Ok v /\ su' !! k = Some v).
Proof.
  induction names as [|x names IH]; intros su b su' b' E k; simpl in E.
  - injection E as <- <-. split; [done|]. by intros ?%elem_of_nil.
  - destruct (dict_get (cols t) x) as [rx|] eqn:Hx.
    + assert (exists v b1, unwrap_view h rx = Ok v /\
                unwrap_loop h t names (<[x := v]> su) b1 = Ok (su', b'))
        as (v & b1 & Hv & E').
      { unfold unwrap_view. destruct (h !! rx) as [o|]; [|done].
        destruct o; apply bind_ok in E as (v & Hv & E); eauto. }
      destruct (IH _ _ _ _ E' k) as [IHa IHb]. split.
      * intros Hk. rewrite IHa.
        -- apply lookup_insert_ne. intros ->.
           destruct Hk as [Hk|Hk]; [|congruence].
           apply Hk. by left.
        -- destruct Hk as [Hk|Hk]; [|by right]. left.
           intros Hin. apply Hk. by right.
      * intros Hin r Hr. destruct (decide (k ∈ names)) as [Hk|Hk]; [eauto|].
        apply elem_of_cons in Hin as [->|?]; [|done].
        assert (r = rx) as -> by congruence.
        exists v. split; [done|]. rewrite IHa by auto.
        apply lookup_insert_eq.
    + destruct (IH _ _ _ _ E k) as [IHa IHb]. split.
      * intros Hk. apply IHa. destruct Hk as [Hk|Hk]; [|by right]. left.
        intros Hin. apply Hk. by right.
      * intros Hin r Hr. apply IHb; [|done].
        apply elem_of_cons in Hin as [->|?]; [congruence|done].
Qed.
End EvalEnv.

(** X18.  The dictionary the engines receive holds, beside the parameters,
    exactly the columns named in the expression: a name that is not in the
    expression or not a column is absent, a column named in it is present
    with its view. *)
Theorem eval_sees_only_named_columns `{Libraries} `{Engines}
    (h : heap) (self : ref) (t : Table) (expr : string)
    (parameters : option (gmap string pyval)) (names : list string)
    (env : gmap string pyval) (b : bool) (k : string) :
  h !! self = Some (TableObj t) ->
  co_names expr = Ok names ->
  eval_env h self expr parameters = Ok (env, b) ->
  default ∅ parameters !! k = None ->
  (k ∉ names \/ dict_get (cols t) k = None -> env !! k = None) /\
  (k ∈ names -> forall r, dict_get (cols t) k = Some r ->
     exists v, unwrap_view h r = Ok v /\ env !! k = Some v).
Proof.
  intros Et En E Hp. unfold eval_env in E. rewrite En in E. simpl in E.
  rewrite (proj2 (get_table_ok _ _ _) Et) in E. simpl in E.
  apply bind_ok in E as ([su b0] & E & [= <- <-]).
  destruct (unwrap_loop_lookup _ _ _ _ _ _ _ E k) as [Ha Hb].
  rewrite dict_or_lookup_l by done. split.
  - intros Hk. by rewrite Ha.
  - done.
Qed.

Lemma eval_sees_only_named_columns_witness :
  let t := mk_Table (Some 3) 0 (("a", 0%nat) :: ("b", 1%nat) :: nil) nil in
  let env : gmap string pyval :=
    {[ "a" := PyNdarray (mk_ndarray (3%nat :: nil) (1 :: 2 :: 3 :: nil)) ]} in
  store_ab !! 2%nat = Some (TableObj t) /\
  co_names "a + a" = Ok ("a" :: "a" :: nil) /\
  eval_env store_ab 2%nat "a + a" None = Ok (env, false) /\
  env !! "b" = None.
Proof.
  intros t env.
  assert (Et : store_ab !! 2%nat = Some (TableObj t)) by reflexivity.
  assert (En : co_names "a + a" = Ok ("a" :: "a" :: nil)) by reflexivity.
  assert (E : eval_env store_ab 2%nat "a + a" None = Ok (env, false))
    by (vm_compute; reflexivity).
  repeat (split; [assumption|]).
  refine (proj1 (eval_sees_only_named_columns store_ab 2%nat t "a + a" None
                   _ env false "b" Et En E eq_refl) (or_introl _)).
  intros [?|[?|?%elem_of_nil]%elem_of_cons]%elem_of_cons; done.
Defined.

(** X19.  [eval] never returns when a name of the expression is a column
    that is itself a table; when it is the first name, the error is the
    [TypeError] of [Table.view_as("np")]. *)
Theorem eval_refuses_table_columns `{Libraries} `{Engines}
    (h : heap) (self : ref) (t : Table) (expr : string)
    (parameters : option (gmap string pyval)) (names : list string)
    (name : string) (column : ref) (t' : Table) :
  h !! self = Some (TableObj t) ->
  co_names expr = Ok names ->
  name ∈ names ->
  dict_get (cols t) name = Some column ->
  h !! column = Some (TableObj t') ->
  ~ returns (Table_eval h self expr parameters) /\
  (forall rest, names = name :: rest ->
     Table_eval h self expr parameters = Raise TypeError).
Proof.
  intros Et En Hin Hd Ec.
  assert (Hview : unwrap_view h column = Raise TypeError).
  { unfold unwrap_view, lgdo_view_as. by rewrite Ec. }
  split.
  - intros [res E]. rewrite eval_by_env in E.
    apply bind_ok in E as ([env b] & E & _).
    unfold eval_env in E. rewrite En in E. simpl in E.
    rewrite (proj2 (get_table_ok _ _ _) Et) in E. simpl in E.
    apply bind_ok in E as ([su b0] & E & _).
    destruct (unwrap_loop_lookup _ _ _ _ _ _ _ E name) as [_ Hb].
    destruct (Hb Hin column Hd) as (v & Hv & _). congruence.
  - intros rest ->. unfold Table_eval. rewrite En. simpl.
    rewrite (proj2 (get_table_ok _ _ _) Et). simpl. rewrite Hd, Ec.
    unfold unwrap_view in Hview. rewrite Ec in Hview. by rewrite Hview.
Qed.

Lemma eval_refuses_table_columns_witness :
  let t := mk_Table (Some 3) 0 (("t", 0%nat) :: nil) nil in
  store_nested !! 1%nat = Some (TableObj t) /\
  co_names "x + t" = Ok ("x" :: "t" :: nil) /\
  ~ returns (Table_eval store_nested 1%nat "x + t"
               (Some {[ "x" := PyNumber 1 ]})).
Proof.
  intros t.
  assert (Et : store_nested !! 1%nat = Some (TableObj t)) by reflexivity.
  assert (En : co_names "x + t" = Ok ("x" :: "t" :: nil)) by reflexivity.
  split; [exact Et|]. split; [exact En|].
  refine (proj1 (eval_refuses_table_columns store_nested 1%nat t "x + t" _
                   _ "t" 0%nat (mk_Table (Some 3) 0 nil nil) Et En _
                   eq_refl eq_refl)).
  right. by left.
Defined.

Lemma add_field_keeps_length fuel h self t name obj h' s :
  h !! self = Some (TableObj t) -> size t = Some s ->
  Table_add_field fuel h self name obj false = Ok h' ->
  keeps_length s h h'.
Proof.
  intros Et Hs E.
  destruct (add_field_cases _ _ _ _ _ _ _ _ Et E) as (l & _ & Hcase).
  rewrite Hs in Hcase.
  assert (K1 : keeps_length s h
                 (<[self := TableObj (set_cols t (dict_set (cols t) name obj))]> h)).
  { intros r Hr. by rewrite length_at_set_cols. }
  destruct Hcase as [[_ ->]|[_ Er]]; [done|].
  apply Table_resize_post in Er as (((K & _) & _) & _).
  by eapply keeps_length_trans.
Qed.

Lemma join_loop_sizes fuel self other s names : forall h h',
  size_at h self = Some s -> 0 <= s ->
  join_loop fuel names h self other = Ok h' ->
  size_at h' self = Some s /\ keeps_length s h h' /\
  forall name, name ∈ names ->
    exists c, getitem h' self name = Ok c /\ length_at h' c = Some s.
Proof.
  induction names as [|name rest IH]; intros h h' Hs Hs0 E.
  - simpl in E. injection E as <-. split; [done|].
    split; [apply keeps_length_refl|]. by intros name ?%elem_of_nil.
  - pose proof E as Eall. simpl in E.
    apply bind_ok in E as (obj & Eobj & E).
    apply bind_ok in E as (h1 & E1 & E). unfold Table_add_column in E1.
    assert (exists t, h !! self = Some (TableObj t) /\ size t = Some s)
      as (t & Et & Hst).
    { unfold size_at in Hs. destruct (h !! self) as [[| | | |t]|]; try done.
      eauto. }
    assert (Hnn : forall s', size t = Some s' -> 0 <= s')
      by (intros s' Hs'; congruence).
    destruct (add_field_result _ _ _ _ _ _ _ _ Et Hnn E1)
      as (t1 & n & Et1 & Hs1 & _ & Hc1 & Hl1).
    destruct (add_field_size _ _ _ _ _ _ _ Et E1) as (s' & Hs' & Hsame & _).
    assert (n = s) as ->.
    { unfold size_at in Hs'. rewrite Et1 in Hs'.
      rewrite (Hsame s Hst) in Hs'. congruence. }
    assert (Hs1' : size_at h1 self = Some s)
      by (unfold size_at; by rewrite Et1).
    destruct (IH _ _ Hs1' Hs0 E) as (Hsz & K & Hall).
    pose proof (add_field_keeps_length _ _ _ _ _ _ _ _ Et Hst E1) as K1.
    split; [done|]. split; [by eapply keeps_length_trans|].
    intros k Hk. destruct (decide (k ∈ rest)) as [?|Hnot]; [by apply Hall|].
    apply elem_of_cons in Hk as [->|?]; [|done].
    exists obj. split; [|by apply K].
    assert (exists fields, cols_at h other = Some fields) as [fields Hf].
    { apply getitem_ok in Eobj as (fs & ? & _). eauto. }
    destruct (join_loop_post _ _ _ _ _ _ _ Hf Eall) as (_ & _ & Hkeep).
    apply getitem_ok in Eobj as (fs & Hfs & Hd).
    assert (fs = fields) as -> by congruence.
    apply (Hkeep name obj Hd). left. by left.
Qed.

(** X20.  [join] on a table of size [s >= 0] keeps that size and leaves
    every joined column, shared with [other_table], with length [s]. *)
Theorem join_brings_columns_to_own_size (fuel : nat) (h : heap)
    (self other_table : ref) (cols_arg : option (list string))
    (do_warn : bool) (h' : heap) (s : Z) (fields : list (string * ref)) :
  size_at h self = Some s -> 0 <= s ->
  cols_at h other_table = Some fields ->
  Table_join fuel h self other_table cols_arg do_warn = Ok h' ->
  size_at h' self = Some s /\
  forall name, name ∈ default (dict_keys fields) cols_arg ->
    exists column,
      getitem h other_table name = Ok column /\
      getitem h' self name = Ok column /\
      length_at h' column = Some s.
Proof.
  intros Hs Hs0 Hf E. unfold Table_join in E.
  apply bind_ok in E as (other & Eo & E). apply bind_ok in E as (me & _ & E).
  apply get_table_ok in Eo.
  assert (cols other = fields) as Hco.
  { unfold cols_at in Hf. rewrite Eo in Hf. by injection Hf. }
  assert (match cols_arg with Some c => c | None => dict_keys (cols other) end
          = default (dict_keys fields) cols_arg) as Hn
    by (rewrite Hco; by destruct cols_arg).
  rewrite Hn in E.
  destruct (join_loop_sizes _ _ _ _ _ _ _ Hs Hs0 E) as (Hsz & _ & Hall).
  destruct (join_loop_post _ _ _ _ _ _ _ Hf E) as (_ & Hex & Hkeep).
  split; [done|]. intros name Hin.
  destruct (Hall name Hin) as (c & Hg & Hl).
  rewrite Forall_forall in Hex. destruct (Hex name Hin) as [c' Hc'].
  assert (getitem h' self name = Ok c') as Hg' by (apply Hkeep; auto).
  assert (c' = c) as -> by congruence.
  exists c. split; [apply getitem_ok; eauto|done].
Qed.

Lemma join_brings_columns_to_own_size_witness :
  let h := <[3%nat := TableObj (mk_Table (Some 5) 0 nil nil)]> store_ab in
  size_at h 3%nat = Some 5 /\ 0 <= 5 /\
  exists h', Table_join 1 h 3%nat 2%nat None true = Ok h' /\
    size_at h' 3%nat = Some 5 /\ size_at h' 2%nat = Some 3 /\
    length_at h' 0%nat = Some 5.
Proof.
  intros h.
  assert (Hs : size_at h 3%nat = Some 5) by reflexivity.
  assert (H0 : 0 <= 5) by lia.
  split; [exact Hs|]. split; [exact H0|].
  assert (E : Table_join 1 h 3%nat 2%nat None true = Ok
    (<[3%nat := TableObj (mk_Table (Some 5) 0
                 (("a", 0%nat) :: ("b", 1%nat) :: nil) nil)]>
     (<[1%nat := array_of (10 :: 20 :: 30 :: 0 :: 0 :: nil)]>
     (<[0%nat := array_of (1 :: 2 :: 3 :: 0 :: 0 :: nil)]> h))))
    by (vm_compute; reflexivity).
  eexists. split; [exact E|].
  split; [|split; reflexivity].
  exact (proj1 (join_brings_columns_to_own_size 1 h 3%nat 2%nat None true _ 5
                  (("a", 0%nat) :: ("b", 1%nat) :: nil) Hs H0 eq_refl E)).
Defined.
